(** * scoreboard_watcher_bot: the score ledger, the rank engine, the retrying
      fetcher, the formatter, the Telegram client and the run of [main.py]

    A shallow embedding of [src/main.py] and properties of it: those the
    specification states, and further ones read off the code.

    Conventions of the embedding.
    - A Python [float] (and an [int] mixed with floats) is modelled by the
      rational number it denotes, in canonical form ([Qc]): comparison, [max]
      and dictionary-key equality are exact on these values; the rounding of
      float addition and multiplication, infinities and NaN are outside the
      model.
    - A Python [dict] with string keys is a [gmap string _]; a [list] is a
      [list]; [None] is [None] of an [option]; an [int] is a [Z].
    - A method that mutates [self] takes the object and returns an [outcome]:
      the object as it is when the call returns or when the exception leaves
      the method. A function that only reads returns [exn + A].
    - Files and the network are inputs: what was read from a file or answered
      by the server is an argument of the function that consumes it, and what
      [time.sleep] was called with is part of the result.

    The first part holds the definitions, one module per class of the source
    and next to each the notions the properties are stated with; the second
    part holds the properties the specification states, the third further
    properties of the code. *)

From Stdlib Require Import ZArith QArith Qcanon Ascii String DecimalString DecimalZ DecimalPos Lia.
From stdpp Require Import base tactics option numbers list sorting gmap strings.

(** ** Python values shared by the classes *)

Module Py.

(** The exceptions the modelled code can raise. *)
Inductive exn : Set := IndexError | KeyError | ValueError.

(** The result of calling a method on an object of type [S]: it returns (a
    value, the object afterwards) or raises (the exception, the object as it
    was left). *)
Inductive outcome (S A : Type) : Type :=
| Returned (a : A) (s : S)
| Raised (e : exn) (s : S).
Arguments Returned {S A} a s.
Arguments Raised {S A} e s.

Definition final {S A} (o : outcome S A) : S :=
  match o with Returned _ s => s | Raised _ s => s end.

(** A function that reads its arguments only returns a value or raises:
    [exn + A], sequenced with stdpp's [x ← e; k]. *)
#[global] Instance exn_ret : MRet (sum exn) := λ A a, inr a.
#[global] Instance exn_bind : MBind (sum exn) := λ A B f m,
  match m with inl e => inl e | inr a => f a end.
#[global] Instance exn_fmap : FMap (sum exn) := λ A B f m,
  match m with inl e => inl e | inr a => inr (f a) end.

(** A lookup that raises [e] when there is nothing to find. *)
Definition or_raise {A} (e : exn) (o : option A) : exn + A :=
  match o with Some a => inr a | None => inl e end.

(** [max(a, b)] on two arguments: [b] when [b > a], otherwise [a]. *)
Definition max (a b : Qc) : Qc := if decide (a < b)%Qc then b else a.

(** [sum(xs)]: left to right from [0]. *)
Definition sum (xs : list Qc) : Qc := foldl Qcplus 0%Qc xs.

(** [sorted(l)] and [l.sort()] by a key order [le]: the stable sort, each
    element placed before the first element of the sorted rest it does not
    exceed. *)
Section sorted.
Context {A : Type} (le : A → A → Prop) `{!∀ x y, Decision (le x y)}.

Fixpoint insert_sorted (x : A) (l : list A) : list A :=
  match l with
  | [] => [x]
  | y :: l' => if decide (le x y) then x :: y :: l' else y :: insert_sorted x l'
  end.

Definition sorted (l : list A) : list A := foldr insert_sorted [] l.

End sorted.

(** [str(n)] for an [int]. *)
Definition str (n : Z) : string := NilZero.string_of_int (Z.to_int n).

(** [int(s)] for a [str]: an optional minus sign and one or more ASCII digits;
    [None] is [ValueError]. Python moreover accepts surrounding white space, a
    plus sign and underscores between digits, which no string written by this
    program contains. *)
Definition int (s : string) : option Z := Z.of_int <$> NilZero.int_of_string s.

(** [s.split(sep)[0]] for a one-character separator: the characters before
    the first [sep] (all of [s] when there is none). *)
Fixpoint before (sep : ascii) (s : string) : string :=
  match s with
  | EmptyString => EmptyString
  | String c s' => if Ascii.eqb c sep then EmptyString else String c (before sep s')
  end.

(** What follows the first [sep], if [s] holds one. *)
Fixpoint after (sep : ascii) (s : string) : option string :=
  match s with
  | EmptyString => None
  | String c s' => if Ascii.eqb c sep then Some s' else after sep s'
  end.

(** The number written by a string of ASCII digits (the empty string is 0). *)
Definition digits_value (s : string) : option Z := Z.of_uint <$> NilEmpty.uint_of_string s.

(** The number written by the characters after the sign of a number in
    fixed notation: digits, and optionally a point and digits, with a digit on
    at least one side. *)
Definition magnitude_of (body : string) : option Qc :=
  let whole := before "." body in
  let fraction := default EmptyString (after "." body) in
  if decide (whole = EmptyString ∧ fraction = EmptyString) then None else
  w ← digits_value whole;
  f ← digits_value fraction;
  Some (Qc_of_Z w + Q2Qc (f # Z.to_pos (10 ^ Z.of_nat (String.length fraction))))%Qc.

(** [float(s)] for a [str] in fixed notation, with an optional minus sign;
    [None] is [ValueError]. Python moreover accepts exponents, white space,
    underscores, [inf] and [nan], which the formatter never writes. *)
Definition float (s : string) : option Qc :=
  match s with
  | String c rest => if Ascii.eqb c "-" then Qcopp <$> magnitude_of rest else magnitude_of s
  | EmptyString => magnitude_of s
  end.

(** A character that is not a decimal digit. *)
Definition not_digit (c : ascii) : Prop := uint_of_char c (Some Decimal.Nil) = None.

(** The digit constructor of [Decimal.uint] for a value below ten. *)
Definition cons_digit (x : Z) (u : Decimal.uint) : Decimal.uint :=
  match x with
  | 0 => Decimal.D0 u | 1 => Decimal.D1 u | 2 => Decimal.D2 u | 3 => Decimal.D3 u
  | 4 => Decimal.D4 u | 5 => Decimal.D5 u | 6 => Decimal.D6 u | 7 => Decimal.D7 u
  | 8 => Decimal.D8 u | _ => Decimal.D9 u
  end%Z.

End Py.

(** ** class Formatter *)

Module Formatter.

(** The integer nearest to [n / d], a tie going to the even neighbour: the
    rounding of Python's fixed-point conversion of a float, which is exact on
    the value the float denotes. *)
Definition round_half_even (n : Z) (d : positive) : Z :=
  let fl := (n / Z.pos d)%Z in
  match (2 * (n mod Z.pos d) ?= Z.pos d)%Z with
  | Lt => fl
  | Gt => (fl + 1)%Z
  | Eq => if Z.even fl then fl else (fl + 1)%Z
  end.

Definition digit (d : Z) : ascii := ascii_of_nat (48 + Z.to_nat d).

(** The [k] decimal digits of [r], most significant first, for [r] below
    [10 ^ k]. *)
Fixpoint digits (k : nat) (r : Z) : string :=
  match k with
  | O => EmptyString
  | S k' => String (digit (r / 10 ^ Z.of_nat k')) (digits k' (r mod 10 ^ Z.of_nat k'))
  end.

(** ['{0:.<precision>f}'.format(value)]: the sign of [value], the integer
    part, and with a precision above zero a point and [precision] digits. *)
Definition format_f (precision : nat) (value : Qc) : string :=
  let unit := (10 ^ Z.of_nat precision)%Z in
  let m := round_half_even (Z.abs (Qnum value) * unit) (Qden value) in
  (if (Qnum value <? 0)%Z then "-" else "")
  +:+ Py.str (m / unit)
  +:+ match precision with
     | O => ""
     | _ => String "." (digits precision (m mod unit))
     end.

(** [self.formatting_dict = {False: '{0:.0f}', True: '{0:.2f}'}], each format
    string given by its precision. *)
Definition formatting_dict (fractional_scoring : bool) : nat :=
  if fractional_scoring then 2%nat else 0%nat.

(** [__call__] *)
Definition call (value : Qc) (fractional_scoring : bool) : string :=
  format_f (formatting_dict fractional_scoring) value.

(** The number of characters after the decimal point of a written number. *)
Definition decimal_places (s : string) : nat :=
  match Py.after "." s with Some fraction => String.length fraction | None => 0 end.
(** Half a unit of the last of [places] decimal places. *)
Definition half_unit (places : nat) : Qc := Q2Qc (1 # Z.to_pos (2 * 10 ^ Z.of_nat places)).

(** The number a formatted value is read back as. *)
Definition written (precision : nat) (value : Qc) : Qc :=
  let unit := (10 ^ Z.of_nat precision)%Z in
  let m := round_half_even (Z.abs (Qnum value) * unit) (Qden value) in
  let magnitude := (Qc_of_Z (m / unit) + Q2Qc ((m mod unit) # Z.to_pos unit))%Qc in
  if (Qnum value <? 0)%Z then (- magnitude)%Qc else magnitude.

End Formatter.

(** [formatter = Formatter()] *)
Definition formatter : Qc → bool → string := Formatter.call.

(** ** class DataFetcher *)

Module DataFetcher.

(** The [fetcher] section of the configuration; [first_retry_delay] is the
    number of seconds [pytimeparse.parse] returns for the configured text. *)
Record config : Type := mkConfig {
  first_retry_delay : Qc;
  retries : Z;
  retry_delay_exponent : Qc
}.

(** What one [requests.get(url)] followed by [result.json()] can do: the call
    raises, or it answers with a status code and a body that decodes to a JSON
    value or does not ([result.json()] raises). *)
Inductive attempt (J : Type) : Type :=
| Fault
| Response (status_code : Z) (json : option J).
Arguments Fault {J}.
Arguments Response {J} status_code json.

Section get_request.
Context {J : Type} (self : config) (server : nat → attempt J).

(** The body of [for i in range(retries)], from index [i] on; [slept] lists
    the arguments of [time.sleep] so far, oldest first. *)
Fixpoint attempts (indices : list nat) (retry_delay : Qc) (slept : list Qc)
  : option J * list Qc :=
  match indices with
  | [] => (None, slept)
  | i :: rest =>
      let after_except :=
        if decide (Z.of_nat i + 1 < retries self)%Z
        then attempts rest (retry_delay * retry_delay_exponent self)%Qc (slept ++ [retry_delay])
        else attempts rest retry_delay slept in
      match server i with
      | Fault => after_except
      | Response status_code json =>
          if decide (status_code ≠ 200%Z)
          then attempts rest retry_delay slept          (* continue *)
          else match json with
               | Some value => (Some value, slept)      (* return result.json() *)
               | None => after_except
               end
      end
  end.

(** [_get_request]: the value returned ([None] is Python's [None]) and the
    delays slept. *)
Definition _get_request : option J * list Qc :=
  attempts (seq 0 (Z.to_nat (retries self))) (first_retry_delay self) [].

End get_request.

(** The delays the backoff rule asks for when every attempt fails: one before
    each attempt but the first, starting at [first_retry_delay] and multiplied
    by [retry_delay_exponent] each time. *)
Definition backoff_schedule (self : config) : list Qc :=
  (λ k, first_retry_delay self * retry_delay_exponent self ^ k)%Qc
    <$> seq 0 (Z.to_nat (retries self) - 1).

(** An attempt that ends in the [except] clause: [requests.get] raises, or
    the answer has status 200 and [result.json()] raises. *)
Definition excepts {J} (a : attempt J) : bool :=
  match a with
  | Fault => true
  | Response status_code None => bool_decide (status_code = 200%Z)
  | Response _ (Some _) => false
  end.

(** An attempt that makes [_get_request] return. *)
Definition answers {J} (a : attempt J) : bool :=
  match a with
  | Response status_code (Some _) => bool_decide (status_code = 200%Z)
  | _ => false
  end.

(** The object: [self.config], with its [scoreboard_url] entry aside. *)
Record t : Type := mk { settings : config; scoreboard_url : string }.

(** ['{}/sublist/{}'.format(self.config['scoreboard_url'], login)] *)
Definition sublist_url (self : t) (login : string) : string :=
  scoreboard_url self +:+ "/sublist/" +:+ login.

(** ['{}/scores'.format(self.config['scoreboard_url'])] *)
Definition scores_url (self : t) : string := scoreboard_url self +:+ "/scores".

(** [fetch_data] and [fetch_scores]; [network url] answers the attempts of
    the call that requests [url]. *)
Definition fetch_data {J} (self : t) (network : string → nat → attempt J) (login : string)
  : option J * list Qc :=
  _get_request (settings self) (network (sublist_url self login)).

Definition fetch_scores {J} (self : t) (network : string → nat → attempt J)
  : option J * list Qc :=
  _get_request (settings self) (network (scores_url self)).

End DataFetcher.

(** ** class State: the submission ledger *)

Module State.

(** A submission record of the [sublist] endpoint:
    [{key, user, task, time, extra, score}]. *)
Record Submission : Type := mkSubmission {
  key : string;
  user : string;
  task : string;
  time : Z;
  extra : list Qc;
  score : Qc
}.

(** [self.state] and [self.submissions]. *)
Record t : Type := mk {
  state : gmap string (gmap string (list Qc));
  submissions : list string
}.

(** The object built when the state file does not exist. *)
Definition empty : t := {| state := ∅; submissions := [] |}.

(** [State(state_config)]; [json_state] is the content of the state file, the
    object with the entries [results] and [submission], [None] when the file
    does not exist. *)
Definition init (json_state : option t) : t := default empty json_state.

(** [flush]: the content written to the state file. *)
Definition flush (self : t) : t := self.

(** [submission['key'] in self.submissions] *)
Definition has_submission (self : t) (submission : Submission) : bool :=
  bool_decide (key submission ∈ submissions self).

(** The loop
    [for i in range(len(points)): v[i] = max(v[i], float(points[i]))]
    on the list [v] stored for the pair; reading [v[i]] out of range raises
    [IndexError] and leaves the components written so far. *)
Fixpoint max_loop (indices : list nat) (points v : list Qc) : list Qc + list Qc :=
  match indices with
  | [] => inl v
  | i :: rest =>
      match v !! i, points !! i with
      | Some old, Some p => max_loop rest points (<[i := Py.max old p]> v)
      | _, _ => inr v
      end
  end.

Definition add_submission (self : t) (submission : Submission) : Py.outcome t unit :=
  let participant := user submission in
  let problem := task submission in
  let points := extra submission in
  (* if participant not in self.state: self.state[participant] = {} *)
  let problems := default ∅ (state self !! participant) in
  (* if problem not in self.state[participant]: ... = [.0] * len(points) *)
  let v := default (replicate (length points) 0%Qc) (problems !! problem) in
  match max_loop (seq 0 (length points)) points v with
  | inl v' =>
      Py.Returned tt {| state := <[participant := <[problem := v']> problems]> (state self);
                     submissions := submissions self ++ [key submission] |}
  | inr v' =>
      Py.Raised Py.IndexError
             {| state := <[participant := <[problem := v']> problems]> (state self);
                submissions := submissions self |}
  end.

Definition get_points (self : t) (participant problem : string)
    (fractional_scoring : bool) : string :=
  match state self !! participant with
  | None => formatter 0%Qc fractional_scoring
  | Some problems =>
      match problems !! problem with
      | None => formatter 0%Qc fractional_scoring
      | Some v => formatter (Py.sum v) fractional_scoring
      end
  end.

(** The score vector stored for a pair, if any. *)
Definition vector (self : t) (participant problem : string) : option (list Qc) :=
  state self !! participant ≫= λ problems, problems !! problem.

(** What the loop leaves in [v] whether it ends or raises: the components
    that both lists have are raised to the maximum, the others of [v] stay. *)
Fixpoint merge (v points : list Qc) : list Qc :=
  match v, points with
  | old :: v', p :: points' => Py.max old p :: merge v' points'
  | _, _ => v
  end.

(** [m] is the maximum of the numbers [xs]. *)
Definition maximum_of (m : Qc) (xs : list Qc) : Prop :=
  m ∈ xs ∧ ∀ x, x ∈ xs → (x ≤ m)%Qc.

(** Component [i] of each submission that has one. *)
Definition column (i : nat) (subs : list Submission) : list Qc :=
  omap (λ sub, extra sub !! i) subs.

(** The vector the loop of [add_submission] starts from. *)
Definition start (self : t) (sub : Submission) : list Qc :=
  default (replicate (length (extra sub)) 0%Qc) (vector self (user sub) (task sub)).

(** Applying submissions one after the other, as the loop of [main] does; an
    exception ends the run. *)
Fixpoint add_submissions (self : t) (subs : list Submission) : Py.outcome t unit :=
  match subs with
  | [] => Py.Returned tt self
  | sub :: rest =>
      match add_submission self sub with
      | Py.Returned _ self' => add_submissions self' rest
      | Py.Raised e self' => Py.Raised e self'
      end
  end.

End State.

(** ** class Scoreboard: the rank engine *)

Module Scoreboard.

(** [self.ok], [self.positions] and [self.old_positions]; the last attribute
    is not set when [ok] is false, where nothing reads it. *)
Record t : Type := mk {
  ok : bool;
  positions : gmap string string;
  old_positions : gmap string string
}.

(** [sum(problem_stats.values())] *)
Definition total_score (problem_stats : gmap string Qc) : Qc :=
  Py.sum (map_to_list problem_stats).*2.

(** [points[total_score].append(id)] on the [defaultdict(list)]. *)
Definition append_id (points : gmap Qc (list string)) (item : string * gmap string Qc)
  : gmap Qc (list string) :=
  let total := total_score item.2 in
  <[total := (default [] (points !! total) ++ [item.1])%list]> points.

(** The order of [sorted(points.items(), key = itemgetter(0), reverse = True)]. *)
Definition descending (a b : Qc * list string) : Prop := (b.1 ≤ a.1)%Qc.

#[global] Instance descending_dec a b : Decision (descending a b).
Proof. unfold descending. apply _. Defined.

(** ['{}-{}'.format(ptr + 1, ptr + ln) if ln > 1 else str(ptr + 1)] *)
Definition position (ptr ln : Z) : string :=
  if decide (1 < ln)%Z
  then Py.str (ptr + 1) +:+ "-" +:+ Py.str (ptr + ln)
  else Py.str (ptr + 1).

(** The loop over the sorted groups, [ptr] advancing by the size of each. *)
Fixpoint assign (ptr : Z) (groups : list (Qc * list string))
    (positions : gmap string string) : gmap string string :=
  match groups with
  | [] => positions
  | (_, people) :: rest =>
      let ln := Z.of_nat (length people) in
      assign (ptr + ln) rest
             (foldl (λ acc id, <[id := position ptr ln]> acc) positions people)
  end.

(** The positions computed from the items of [scores], in the order the loop
    over [scores.items()] visits them (the result is the same for every
    order, see [rank_items_lookup]). *)
Definition rank_items (items : list (string * gmap string Qc)) : gmap string string :=
  let points := foldl append_id ∅ items in
  assign 0 (Py.sorted descending (map_to_list points)) ∅.

(** [Scoreboard(scores)]; [scoreboard_json] is the content of
    [scoreboard.json], [None] when the file does not exist. *)
Definition init (scores : option (gmap string (gmap string Qc)))
    (scoreboard_json : option (gmap string string)) : t :=
  match scores with
  | None => {| ok := false; positions := ∅; old_positions := ∅ |}
  | Some scores =>
      if decide (scores = ∅)
      then {| ok := false; positions := ∅; old_positions := ∅ |}
      else {| ok := true;
              positions := rank_items (map_to_list scores);
              old_positions := default ∅ scoreboard_json |}
  end.

Definition get_result (self : t) (id : string) : Py.exn + (string * string) :=
  if negb (ok self) then inr ("", "?") else
  let old_pos := default "?" (old_positions self !! id) in
  match positions self !! id with
  | None => inl Py.KeyError
  | Some new_pos =>
      if decide (old_pos = "?") then inr ("", new_pos) else
      match Py.int (Py.before "-" old_pos), Py.int (Py.before "-" new_pos) with
      | Some op_st, Some np_st =>
          if decide (np_st < op_st)%Z then inr ("↑", new_pos)
          else if decide (op_st < np_st)%Z then inr ("↓", new_pos)
          else inr ("", new_pos)
      | _, _ => inl Py.ValueError
      end
  end.

(** [flush]: the content written to [scoreboard.json]. *)
Definition flush (self : t) : gmap string string := positions self.

(** A rank descriptor as the specification reads the strings of [positions]:
    one rank, or the closed range of a tie group. *)
Inductive descriptor : Type :=
| Single (rank : Z)
| Range (low high : Z).

Definition low (d : descriptor) : Z :=
  match d with Single r => r | Range l _ => l end.

Definition high (d : descriptor) : Z :=
  match d with Single r => r | Range _ h => h end.

Definition render (d : descriptor) : string :=
  match d with
  | Single r => Py.str r
  | Range l h => Py.str l +:+ "-" +:+ Py.str h
  end.

(** Reading a descriptor back from its string. *)
Definition parse (s : string) : option descriptor :=
  match Py.after "-" s with
  | None => Single <$> Py.int s
  | Some rest => l ← Py.int (Py.before "-" s); h ← Py.int rest; Some (Range l h)
  end.

(** The number of items whose total is strictly above [t], and the number
    whose total is [t]. *)
Definition above (items : list (string * gmap string Qc)) (t : Qc) : nat :=
  length (filter (λ item, (t < total_score item.2)%Qc) items).
Definition level (items : list (string * gmap string Qc)) (t : Qc) : nat :=
  length (filter (λ item, total_score item.2 = t) items).

(** Participants of [scores] with a total strictly above [t], and with total [t]. *)
Definition better (scores : gmap string (gmap string Qc)) (t : Qc) : nat :=
  above (map_to_list scores) t.
Definition tied (scores : gmap string (gmap string Qc)) (t : Qc) : nat :=
  level (map_to_list scores) t.
(** The descriptor of a tie group of [n] participants below [b] others. *)
Definition expected (b n : nat) : descriptor :=
  if decide (1 < n) then Range (Z.of_nat b + 1) (Z.of_nat b + Z.of_nat n)
  else Single (Z.of_nat b + 1).
(** The descriptor [positions] holds for [id], read back from its string. *)
Definition descriptor_of (self : Scoreboard.t) (id : string) : option descriptor :=
  positions self !! id ≫= parse.

(** A descriptor string of [positions]. *)
Definition rendered (s : string) : Prop := ∃ d, s = render d ∧ (0 ≤ low d)%Z.

End Scoreboard.

(** ** class Telegram *)

Module Telegram.

(** What one [requests.get(url)] of this class can do: the call raises, or it
    answers with a status code, a body text and the value of
    [r.json()['result']['message_id']] (an exception when the body does not
    decode or lacks the entries). *)
Inductive answer : Type :=
| Fault
| Response (status_code : Z) (text : string) (message_id : Py.exn + Z).

(** What ends a call early: an exception of [requests], or one of Python. *)
Inductive error : Type := RequestException | Python (e : Py.exn).

(** The result of a call on a state of type [S]: it returns or raises, and
    leaves the state [s]. *)
Inductive outcome (S : Type) : Type :=
| Done (s : S)
| Failed (e : error) (s : S).
Arguments Done {S} s.
Arguments Failed {S} e s.

Definition final {S} (o : outcome S) : S :=
  match o with Done s => s | Failed _ s => s end.

Inductive stream : Type := Stdout | Stderr.

(** What the calls leave outside the program: the URLs requested and the
    lines printed, oldest first. *)
Record io : Type := mkIo { requests : list string; printed : list (stream * string) }.

Definition request (url : string) (w : io) : io :=
  {| requests := requests w ++ [url]; printed := printed w |}.

Definition print (s : stream) (line : string) (w : io) : io :=
  {| requests := requests w; printed := printed w ++ [(s, line)] |}.

(** [self.token] and [self.config]; chat ids are strings, as the keys of
    [pinned.json] are. *)
Record t : Type := mk { token : string; config : gmap string (gmap string Z) }.

(** [Telegram(token)]; [pinned_json] is the content of [pinned.json], [None]
    when the file does not exist. *)
Definition init (token : string) (pinned_json : option (gmap string (gmap string Z))) : t :=
  {| token := token; config := default ∅ pinned_json |}.

(** [flush]: the content written to [pinned.json]. *)
Definition flush (self : t) : gmap string (gmap string Z) := config self.

Definition sendMessage (token message chat_id : string) : string :=
  "https://api.telegram.org/bot" +:+ token +:+ "/sendMessage?text=" +:+ message
    +:+ "&chat_id=" +:+ chat_id.

Definition pinChatMessage (token chat_id : string) (message_id : Z) : string :=
  "https://api.telegram.org/bot" +:+ token +:+ "/pinChatMessage?chat_id=" +:+ chat_id
    +:+ "&message_id=" +:+ Py.str message_id.

Definition editMessageText (token chat_id : string) (message_id : Z) (message : string)
  : string :=
  "https://api.telegram.org/bot" +:+ token +:+ "/editMessageText?chat_id=" +:+ chat_id
    +:+ "&message_id=" +:+ Py.str message_id +:+ "&text=" +:+ message.

(** [needle in text] *)
Definition contains (needle text : string) : bool :=
  match String.index 0 needle text with Some _ => true | None => false end.

(** [self.config[chat_id]['pinned_message_id']], if both entries exist. *)
Definition pinned_message_id (self : t) (chat_id : string) : option Z :=
  config self !! chat_id ≫= λ entry, entry !! "pinned_message_id".

Section calls.
(** The answer to each request of the run, by the number of requests made
    before it. *)
Context (network : nat → answer).

Definition send_message (self : t) (w : io) (chat_id message : string) (pin : bool)
  : outcome (t * io) :=
  let w1 := request (sendMessage (token self) message chat_id) w in
  match network (length (requests w)) with
  | Fault => Failed RequestException (self, w1)
  | Response status_code _ message_id =>
      if decide (status_code ≠ 200%Z)
      then Done (self, print Stderr ("Failed to send message to chat " +:+ chat_id) w1)
      else if negb pin then Done (self, w1)
      else
        match message_id with
        | inl e => Failed (Python e) (self, w1)
        | inr message_id =>
            let w2 := request (pinChatMessage (token self) chat_id message_id) w1 in
            match network (length (requests w1)) with
            | Fault => Failed RequestException (self, w2)
            | Response status_code _ _ =>
                if decide (status_code ≠ 200%Z)
                then Done (self, print Stderr ("Failed to pin message to chat " +:+ chat_id) w2)
                else
                  (* if chat_id not in self.config: self.config[chat_id] = {} *)
                  let entry := default ∅ (config self !! chat_id) in
                  Done ({| token := token self;
                           config := <[chat_id := <["pinned_message_id" := message_id]> entry]>
                                       (config self) |}, w2)
            end
        end
  end.

Definition edit_pinned_message (self : t) (w : io) (chat_id message : string)
  : outcome (t * io) :=
  (* if chat_id not in self.config: self.config[chat_id] = {} *)
  let self1 :=
    match config self !! chat_id with
    | Some _ => self
    | None => {| token := token self; config := <[chat_id := ∅]> (config self) |}
    end in
  match pinned_message_id self1 chat_id with
  | None => send_message self1 w chat_id message true
  | Some message_id =>
      let w1 := request (editMessageText (token self1) chat_id message_id message) w in
      match network (length (requests w)) with
      | Fault => Failed RequestException (self1, w1)
      | Response status_code text _ =>
          if decide (status_code ≠ 200%Z)
          then
            if negb (contains
                 "Bad Request: message is not modified: specified new message content" text)
            then Done (self1, print Stdout ("Failed to edit pinned message in chat " +:+ chat_id) w1)
            else Done (self1, w1)
          else Done (self1, w1)
      end
  end.

End calls.

End Telegram.

(** ** main *)

Module Participant.
Record t : Type := mk { login : string; name : string }.
End Participant.

(** A problem of the configuration, [fractional_scoring] and [mute] already
    defaulted to [False] by [problem.get]. *)
Module Problem.
Record t : Type := mk { id : string; name : string; fractional_scoring : bool; mute : bool }.
End Problem.

Module Main.

(** *** The leaderboard lines (lines 264 to 277) *)

Section leaderboard.
Context (participants : list Participant.t) (problems : list Problem.t)
        (state : State.t) (score_upgrades : gset string) (scoreboard : Scoreboard.t).

Definition use_fractional_scoring : gmap string bool :=
  foldl (λ d problem, <[Problem.id problem := Problem.fractional_scoring problem]> d) ∅ problems.

Definition problem_muted : gmap string bool :=
  foldl (λ d problem, <[Problem.id problem := Problem.mute problem]> d) ∅ problems.

Definition problems_ordered : list string := Problem.id <$> problems.

(** The body of [for participant in config['participants']]: the pair
    appended to [pinned_text_builder]. *)
Definition line (participant : Participant.t) : Py.exn + (string * string) :=
  let login := Participant.login participant in
  let name := Participant.name participant in
  points ← mapM (λ problem,
      fractional ← Py.or_raise Py.KeyError (use_fractional_scoring !! problem);
      mret (State.get_points state login problem fractional, problem))
    problems_ordered;
  '(diff, result) ← Scoreboard.get_result scoreboard login;
  values ← mapM (λ x : string * string, Py.or_raise Py.ValueError (Py.float x.1)) points;
  let score := formatter (Py.sum values)
                 (bool_decide (Exists (λ kv, kv.2 = true) (map_to_list use_fractional_scoring))) in
  shown ← mapM (λ x : string * string,
      muted ← Py.or_raise Py.KeyError (problem_muted !! x.2);
      mret (x.1, muted))
    points;
  mret ("[" +:+ diff +:+ result +:+ "] " +:+ name +:+ " ("
          +:+ (if decide (login ∈ score_upgrades) then "↑" else "") +:+ score +:+ "): "
          +:+ String.concat ", " (filter (λ x, x.2 = false) shown).*1,
        result).

(** The key of the final sort: [int(s(x).split('-')[0])]. *)
Definition sort_key (x : string * string) : Py.exn + Z :=
  Py.or_raise Py.ValueError (Py.int (Py.before "-" x.2)).

(** The order of [pinned_text_builder.sort(key = ...)] on the lines paired
    with their keys. *)
Definition by_key (a b : Z * (string * string)) : Prop := (a.1 ≤ b.1)%Z.

#[global] Instance by_key_dec a b : Decision (by_key a b).
Proof. unfold by_key. apply _. Defined.

(** [pinned_text_builder] after the conditional sort. *)
Definition leaderboard : Py.exn + list (string * string) :=
  pinned_text_builder ← mapM line participants;
  if bool_decide (Exists (λ x, x.2 = "?") pinned_text_builder)
  then mret pinned_text_builder
  else
    keys ← mapM sort_key pinned_text_builder;
    mret (Py.sorted by_key (zip keys pinned_text_builder)).*2.

End leaderboard.

(** The order of two leaderboard lines by the low bound of their descriptors. *)
Definition by_low_bound (a b : string * string) : Prop :=
  ∃ da db, Scoreboard.parse a.2 = Some da ∧ Scoreboard.parse b.2 = Some db
           ∧ (Scoreboard.low da ≤ Scoreboard.low db)%Z.

(** *** The cycle (lines 204 to 284) *)

(** The order of [submissions.sort(key = lambda x: x['time'])]. *)
Definition by_time (a b : State.Submission) : Prop := (State.time a ≤ State.time b)%Z.

#[global] Instance by_time_dec a b : Decision (by_time a b).
Proof. unfold by_time. apply _. Defined.

(** The line break of ['\n']. *)
Definition newline : string := String (ascii_of_nat 10) EmptyString.

(** The objects the loop over the new submissions works on: [state],
    [score_upgrades], [telegram], and what has been requested of Telegram and
    printed by [telegram] and [main]. *)
Record run : Type := mkRun {
  state : State.t;
  score_upgrades : gset string;
  telegram : Telegram.t;
  io : Telegram.io
}.

(** The three files the program keeps between runs, [None] for a file that
    does not exist: the state file, [pinned.json] and [scoreboard.json]. *)
Record files : Type := mkFiles {
  state_json : option State.t;
  pinned_json : option (gmap string (gmap string Z));
  scoreboard_json : option (gmap string string)
}.

Section cycle.
(** The configuration, and the world of one run: [sublists] and [totals]
    answer the requests of the fetcher for the two endpoints, [network] those
    of [telegram]; [submit_time t] is the text of
    [datetime.fromtimestamp(t) - contest_start_time]. *)
Context (fetcher : DataFetcher.t)
        (sublists : string → nat → DataFetcher.attempt (list State.Submission))
        (totals : string → nat → DataFetcher.attempt (gmap string (gmap string Qc)))
        (network : nat → Telegram.answer)
        (TOKEN : string)
        (participants : list Participant.t) (problems : list Problem.t)
        (main_chat positive_chat : string)
        (submit_time : Z → string).

Definition participant_names : gmap string string :=
  foldl (λ d participant, <[Participant.login participant := Participant.name participant]> d)
        ∅ participants.

Definition problem_names : gmap string string :=
  foldl (λ d problem, <[Problem.id problem := Problem.name problem]> d) ∅ problems.

(** Lines 226 to 235: [submissions] and [fetch_failed] after the loop over
    the participants; the delays slept meanwhile are those of each call of
    the fetcher. *)
Definition new_submissions (state : State.t) : list State.Submission * bool :=
  foldl (λ acc participant,
           match (DataFetcher.fetch_data fetcher sublists (Participant.login participant)).1 with
           | None => (acc.1, true)                                          (* continue *)
           | Some data =>
               (acc.1 ++ filter (λ submission, State.has_submission state submission = false) data,
                acc.2)
           end)
        ([], false) participants.

(** The text announced for a submission. *)
Definition message (submission : State.Submission)
    (participant_name problem_name score old_score new_score : string) : string :=
  "[" +:+ submit_time (State.time submission) +:+ "]: " +:+ participant_name
    +:+ " submitted " +:+ problem_name +:+ " for " +:+ score +:+ " points" +:+ newline
    +:+ "Total: "
    +:+ (if decide (old_score = new_score) then old_score
         else old_score +:+ " -> " +:+ new_score).

(** The body of [for submission in submissions] (lines 242 to 259). *)
Definition announce (r : run) (submission : State.Submission) : Telegram.outcome run :=
  let participant := State.user submission in
  let problem := State.task submission in
  match use_fractional_scoring problems !! problem with
  | None => Telegram.Failed (Telegram.Python Py.KeyError) r
  | Some fractional_scoring =>
      let score := formatter (State.score submission) fractional_scoring in
      let old_score := State.get_points (state r) participant problem fractional_scoring in
      match State.add_submission (state r) submission with
      | Py.Raised e state' =>
          Telegram.Failed (Telegram.Python e)
            {| state := state'; score_upgrades := score_upgrades r;
               telegram := telegram r; io := io r |}
      | Py.Returned _ state' =>
          let new_score := State.get_points state' participant problem fractional_scoring in
          match participant_names !! participant, problem_names !! problem with
          | Some participant_name, Some problem_name =>
              let text :=
                message submission participant_name problem_name score old_score new_score in
              let w := Telegram.print Telegram.Stderr text (io r) in
              match problem_muted problems !! problem with
              | None =>
                  Telegram.Failed (Telegram.Python Py.KeyError)
                    {| state := state'; score_upgrades := score_upgrades r;
                       telegram := telegram r; io := w |}
              | Some true =>
                  Telegram.Done {| state := state'; score_upgrades := score_upgrades r;
                                   telegram := telegram r; io := w |}
              | Some false =>
                  match Telegram.send_message network (telegram r) w main_chat text false with
                  | Telegram.Failed e (telegram1, w1) =>
                      Telegram.Failed e {| state := state'; score_upgrades := score_upgrades r;
                                           telegram := telegram1; io := w1 |}
                  | Telegram.Done (telegram1, w1) =>
                      if decide (old_score ≠ new_score)
                      then
                        let upgrades := {[ participant ]} ∪ score_upgrades r in
                        match Telegram.send_message network telegram1 w1 positive_chat text false
                        with
                        | Telegram.Failed e (telegram2, w2) =>
                            Telegram.Failed e {| state := state'; score_upgrades := upgrades;
                                                 telegram := telegram2; io := w2 |}
                        | Telegram.Done (telegram2, w2) =>
                            Telegram.Done {| state := state'; score_upgrades := upgrades;
                                             telegram := telegram2; io := w2 |}
                        end
                      else Telegram.Done {| state := state'; score_upgrades := score_upgrades r;
                                            telegram := telegram1; io := w1 |}
                  end
              end
          | _, _ =>
              Telegram.Failed (Telegram.Python Py.KeyError)
                {| state := state'; score_upgrades := score_upgrades r;
                   telegram := telegram r; io := io r |}
          end
      end
  end.

(** What one pass of the loop body requests of [telegram]: nothing, the
    announcement to the main chat, or that and the same text to the positive
    chat. *)
Inductive sent (token : string) : list string → Prop :=
| sent_nothing : sent token []
| sent_main text : sent token [Telegram.sendMessage token text main_chat]
| sent_both text :
    sent token [Telegram.sendMessage token text main_chat;
                Telegram.sendMessage token text positive_chat].

(** The loop over the new submissions; an exception ends it. *)
Fixpoint announce_all (r : run) (submissions : list State.Submission)
  : Telegram.outcome run :=
  match submissions with
  | [] => Telegram.Done r
  | submission :: rest =>
      match announce r submission with
      | Telegram.Done r' => announce_all r' rest
      | Telegram.Failed e r' => Telegram.Failed e r'
      end
  end.

(** [main], from the files as they are found to the files as they are left
    and what was requested and printed; the files are written by the three
    [flush] calls that end a run which did not raise. *)
Definition main (disk : files) : Telegram.outcome (files * Telegram.io) :=
  let start := {| state := State.init (state_json disk);
                  score_upgrades := ∅;
                  telegram := Telegram.init TOKEN (pinned_json disk);
                  io := Telegram.mkIo [] [] |} in
  let fetched := new_submissions (state start) in
  let submissions := Py.sorted by_time fetched.1 in
  let fetch_failed := fetched.2 in
  match announce_all start submissions with
  | Telegram.Failed e r => Telegram.Failed e (disk, io r)
  | Telegram.Done r =>
      let scores :=
        if fetch_failed then None else (DataFetcher.fetch_scores fetcher totals).1 in
      let scoreboard := Scoreboard.init scores (scoreboard_json disk) in
      match leaderboard participants problems (state r) (score_upgrades r) scoreboard with
      | inl e => Telegram.Failed (Telegram.Python e) (disk, io r)
      | inr pinned_text_builder =>
          let pinned_text := String.concat newline pinned_text_builder.*1 in
          match Telegram.edit_pinned_message network (telegram r) (io r) main_chat pinned_text with
          | Telegram.Failed e (_, w1) => Telegram.Failed e (disk, w1)
          | Telegram.Done (telegram1, w1) =>
              match Telegram.edit_pinned_message network telegram1 w1 positive_chat pinned_text with
              | Telegram.Failed e (_, w2) => Telegram.Failed e (disk, w2)
              | Telegram.Done (telegram2, w2) =>
                  Telegram.Done
                    ({| state_json := Some (State.flush (state r));
                        pinned_json := Some (Telegram.flush telegram2);
                        scoreboard_json := Some (Scoreboard.flush scoreboard) |},
                     Telegram.print Telegram.Stderr pinned_text w2)
              end
          end
      end
  end.

End cycle.

End Main.

(** ** Concrete inputs used by the examples below *)

Module Sample.
Import State.

Definition num (z : Z) : Qc := Qc_of_Z z.

(** Submissions of participant ann for problem sum. *)
Definition first_try : Submission :=
  mkSubmission "k1" "ann" "sum" 10 [num 30; num 0] (num 30).
Definition second_try : Submission :=
  mkSubmission "k2" "ann" "sum" 20 [num 10; num 40] (num 50).
Definition negative : Submission :=
  mkSubmission "k3" "ann" "sum" 30 [num (-1)] (num (-1)).
Definition short : Submission :=
  mkSubmission "k4" "ann" "sum" 40 [num 5] (num 5).
Definition long : Submission :=
  mkSubmission "k5" "ann" "sum" 50 [num 5; num 1; num 7] (num 13).
Definition lower : Submission :=
  mkSubmission "k6" "ann" "sum" 60 [num 1; num 1] (num 2).

(** A ledger that holds two components for that pair. *)
Definition ledger : State.t :=
  {| state := {[ "ann" := {[ "sum" := [num 1; num 2] ]} ]}; submissions := ["k0"] |}.

(** Three attempts, 5 seconds at first, doubled each time; a server that
    answers every request with status 500. *)
Definition fetcher : DataFetcher.config := DataFetcher.mkConfig (num 5) 3 (num 2).
Definition always_500 : nat → DataFetcher.attempt unit := λ _, DataFetcher.Response 500 None.

(** The answer of the [scores] endpoint: totals 50, 50 and 30. *)
Definition scores : gmap string (gmap string Qc) :=
  {[ "ann" := {[ "sum" := num 50 ]};
     "bob" := {[ "sum" := num 20; "max" := num 30 ]};
     "cat" := {[ "sum" := num 30 ]} ]}.

(** The same once ann has 80. *)
Definition raised_scores : gmap string (gmap string Qc) :=
  <["ann" := {[ "sum" := num 80 ]}]> scores.

(** A previous snapshot and the scoreboard built against it. *)
Definition snapshot : gmap string string :=
  {[ "ann" := "1"; "bob" := "2-3"; "cat" := "2-3" ]}.
Definition board : Scoreboard.t := Scoreboard.init (Some scores) (Some snapshot).

(** A configuration and the ledger of a cycle. *)
Definition participants : list Participant.t :=
  [Participant.mk "cat" "Cat"; Participant.mk "ann" "Ann"; Participant.mk "bob" "Bob"].
Definition problems : list Problem.t :=
  [Problem.mk "sum" "Sum" false false; Problem.mk "max" "Max" true false].
Definition board_ledger : State.t :=
  {| state := {[ "ann" := {[ "sum" := [num 20; num 30] ]} ]}; submissions := ["k0"] |}.

(** Servers for one call of the fetcher: one that raises, then answers 500,
    then answers 200 with a body that does not decode; one that raises, then
    answers 502, then answers 200 with a decodable body. *)
Definition flaky : nat → DataFetcher.attempt unit := λ i,
  match i with
  | 0 => DataFetcher.Fault
  | 1 => DataFetcher.Response 500 None
  | _ => DataFetcher.Response 200 None
  end.
Definition recovering : nat → DataFetcher.attempt unit := λ i,
  match i with
  | 0 => DataFetcher.Fault
  | 1 => DataFetcher.Response 502 None
  | _ => DataFetcher.Response 200 (Some tt)
  end.

(** The world of a run: a scoreboard server that lists two submissions for
    ann and none for the others, the same with the requests for bob raising,
    and a Telegram server that accepts every request. *)
Definition source : DataFetcher.t := DataFetcher.mk fetcher "http://cms".
Definition sublists : string → nat → DataFetcher.attempt (list Submission) := λ url _,
  DataFetcher.Response 200
    (Some (if String.eqb url "http://cms/sublist/ann" then [second_try; first_try] else [])).
Definition sublists_without_bob : string → nat → DataFetcher.attempt (list Submission) :=
  λ url i,
    if String.eqb url "http://cms/sublist/bob" then DataFetcher.Fault else sublists url i.
Definition totals : string → nat → DataFetcher.attempt (gmap string (gmap string Qc)) :=
  λ _ _, DataFetcher.Response 200 (Some scores).
Definition accepting : nat → Telegram.answer := λ n,
  Telegram.Response 200 "" (inr (100 + Z.of_nat n)%Z).

(** A Telegram object that has pinned message 7 in the main chat, and the
    files of an earlier run. *)
Definition bot : Telegram.t :=
  Telegram.mk "T" {[ "main" := {[ "pinned_message_id" := 7%Z ]} ]}.
Definition quiet : Telegram.io := Telegram.mkIo [] [].
Definition disk : Main.files :=
  Main.mkFiles (Some ledger) (Some (Telegram.config bot)) (Some snapshot).

End Sample.

(** * Properties *)

(** ** The ledger *)

Section ledger.
Import State.
Implicit Types (self : State.t) (sub : Submission) (v points : list Qc).

Lemma max_idemp (a b : Qc) : Py.max (Py.max a b) b = Py.max a b.
Proof.
  unfold Py.max. destruct (decide (a < b)%Qc) as [H|H].
  - destruct (decide (b < b)%Qc) as [H'|]; [|done].
    by apply Qclt_not_eq in H'.
  - by rewrite decide_False.
Qed.

Lemma max_ge_l (a b : Qc) : (a ≤ Py.max a b)%Qc.
Proof.
  unfold Py.max. case_decide; [by apply Qclt_le_weak | apply Qcle_refl].
Qed.

Lemma max_ge_r (a b : Qc) : (b ≤ Py.max a b)%Qc.
Proof.
  unfold Py.max. case_decide; [apply Qcle_refl | by apply Qcnot_lt_le].
Qed.

Lemma max_cases (a b : Qc) : Py.max a b = a ∨ Py.max a b = b.
Proof. unfold Py.max. case_decide; auto. Qed.

Lemma length_merge v points : length (merge v points) = length v.
Proof.
  revert points. induction v as [|old v IH]; intros [|p points]; simpl; auto.
Qed.

Lemma lookup_merge v points i :
  merge v points !! i =
    old ← v !! i; Some (from_option (Py.max old) old (points !! i)).
Proof.
  revert points i. induction v as [|old v IH]; intros [|p points] [|i]; simpl; try done.
  by destruct (v !! i).
Qed.

Lemma merge_idemp v points : merge (merge v points) points = merge v points.
Proof.
  revert points. induction v as [|old v IH]; intros [|p points]; simpl; try done.
  by rewrite max_idemp, IH.
Qed.

Lemma max_loop_from (pp pv points v : list Qc) :
  length pp = length pv →
  max_loop (seq (length pv) (length points)) (pp ++ points) (pv ++ v) =
    if decide (length points ≤ length v)
    then inl (pv ++ merge v points)
    else inr (pv ++ merge v points).
Proof.
  revert pp pv v. induction points as [|p points IH]; intros pp pv v Hlen.
  - rewrite decide_True by (simpl; lia). by destruct v.
  - destruct v as [|old v].
    + rewrite decide_False by (simpl; lia). cbn [length seq max_loop].
      by rewrite lookup_ge_None_2 by (rewrite length_app; simpl; lia).
    + cbn [length seq max_loop merge].
      rewrite list_lookup_middle by done.
      rewrite list_lookup_middle by done.
      replace (<[length pv:=Py.max old p]> (pv ++ old :: v))
        with ((pv ++ [Py.max old p]) ++ v).
      2:{ rewrite <-(Nat.add_0_r (length pv)).
          rewrite insert_app_r. simpl. by rewrite <-app_assoc. }
      replace (pp ++ p :: points) with ((pp ++ [p]) ++ points)
        by (by rewrite <-app_assoc).
      replace (S (length pv)) with (length (pv ++ [Py.max old p]))
        by (rewrite length_app; simpl; lia).
      rewrite IH by (rewrite !length_app; simpl; lia).
      rewrite <-!app_assoc. cbn [app].
      destruct (decide (length points ≤ length v));
        [rewrite decide_True by (simpl; lia) | rewrite decide_False by (simpl; lia)]; done.
Qed.

Lemma max_loop_seq points v :
  max_loop (seq 0 (length points)) points v =
    if decide (length points ≤ length v) then inl (merge v points) else inr (merge v points).
Proof. apply (max_loop_from [] [] points v). done. Qed.

Lemma add_submission_unfold self sub :
  let st' := <[user sub := <[task sub := merge (start self sub) (extra sub)]>
                             (default ∅ (state self !! user sub))]> (state self) in
  add_submission self sub =
    if decide (length (extra sub) ≤ length (start self sub))
    then Py.Returned tt {| state := st'; submissions := submissions self ++ [key sub] |}
    else Py.Raised Py.IndexError {| state := st'; submissions := submissions self |}.
Proof.
  unfold add_submission, start, vector. cbn zeta.
  destruct (state self !! user sub) as [problems|] eqn:Hu; cbn [from_option mbind option_bind].
  - unfold id. rewrite max_loop_seq. by case_decide.
  - rewrite lookup_empty. unfold id; cbn [from_option]. rewrite max_loop_seq. by case_decide.
Qed.

Lemma vector_add_submission self sub :
  vector (Py.final (add_submission self sub)) (user sub) (task sub)
  = Some (merge (start self sub) (extra sub)).
Proof.
  rewrite add_submission_unfold. cbn zeta.
  case_decide; unfold vector; cbn [Py.final state];
    rewrite lookup_insert_eq; cbn [mbind option_bind]; by rewrite lookup_insert_eq.
Qed.

Lemma vector_add_submission_other self sub u p :
  (u, p) ≠ (user sub, task sub) →
  vector (Py.final (add_submission self sub)) u p = vector self u p.
Proof.
  intros Hne. rewrite add_submission_unfold. cbn zeta.
  assert (∀ keys,
    vector {| state := <[user sub := <[task sub := merge (start self sub) (extra sub)]>
                                       (default ∅ (state self !! user sub))]> (state self);
              submissions := keys |} u p = vector self u p) as H.
  { intros keys. unfold vector. cbn [state].
    destruct (decide (u = user sub)) as [->|Hu].
    - rewrite lookup_insert_eq. cbn [mbind option_bind].
      rewrite lookup_insert_ne by congruence.
      destruct (state self !! user sub); cbn; [done | apply lookup_empty].
    - by rewrite lookup_insert_ne. }
  case_decide; apply H.
Qed.

Lemma add_submission_returns self sub :
  length (extra sub) ≤ length (start self sub) →
  add_submission self sub = Py.Returned tt (Py.final (add_submission self sub)).
Proof.
  intros H. rewrite add_submission_unfold. cbn zeta. by rewrite decide_True.
Qed.

Lemma start_initialised self sub v :
  vector self (user sub) (task sub) = Some v → start self sub = v.
Proof. unfold start. by intros ->. Qed.

Lemma start_fresh self sub :
  vector self (user sub) (task sub) = None →
  start self sub = replicate (length (extra sub)) 0%Qc.
Proof. unfold start. by intros ->. Qed.

Lemma lookup_foldl_merge (subs : list Submission) v i x :
  v !! i = Some x →
  foldl merge v (extra <$> subs) !! i = Some (foldl Py.max x (column i subs)).
Proof.
  revert v x. induction subs as [|sub subs IH]; intros v x Hx; [done|].
  cbn [fmap list_fmap foldl]. unfold column. cbn [omap list_omap].
  destruct (extra sub !! i) as [p|] eqn:Hp.
  - cbn [foldl]. apply IH. rewrite lookup_merge, Hx, Hp. done.
  - apply IH. rewrite lookup_merge, Hx, Hp. done.
Qed.

Lemma length_foldl_merge (pts : list (list Qc)) v :
  length (foldl merge v pts) = length v.
Proof.
  revert v. induction pts as [|p pts IH]; intros v; [done|].
  cbn [foldl]. by rewrite IH, length_merge.
Qed.

Lemma maximum_of_foldl_max (x : Qc) (xs : list Qc) :
  maximum_of (foldl Py.max x xs) (x :: xs).
Proof.
  revert x. induction xs as [|a xs IH]; intros x.
  - split; [by left|]. intros y ->%list_elem_of_singleton. apply Qcle_refl.
  - cbn [foldl]. destruct (IH (Py.max x a)) as [Hin Hub]. split.
    + apply elem_of_cons in Hin as [Hin|Hin].
      * rewrite Hin. destruct (max_cases x a) as [->| ->]; [by left | by right; left].
      * by right; right.
    + intros y Hy. apply elem_of_cons in Hy as [->|Hy].
      * apply Qcle_trans with (Py.max x a); [apply max_ge_l | apply Hub; by left].
      * apply elem_of_cons in Hy as [->|Hy].
        -- apply Qcle_trans with (Py.max x a); [apply max_ge_r | apply Hub; by left].
        -- apply Hub. by right.
Qed.

Lemma maximum_of_unique (m m' : Qc) (xs ys : list Qc) :
  xs ≡ₚ ys → maximum_of m xs → maximum_of m' ys → m = m'.
Proof.
  intros Hp [Hin Hub] [Hin' Hub']. apply Qcle_antisym.
  - apply Hub'. by rewrite <-Hp.
  - apply Hub. by rewrite Hp.
Qed.

Lemma add_submissions_initialised (subs : list Submission) self u p v :
  vector self u p = Some v →
  Forall (λ sub, user sub = u ∧ task sub = p ∧ length (extra sub) = length v) subs →
  ∃ self', add_submissions self subs = Py.Returned tt self'
           ∧ vector self' u p = Some (foldl merge v (extra <$> subs)).
Proof.
  revert self v. induction subs as [|sub subs IH]; intros self v Hv Hall.
  - by exists self.
  - apply Forall_cons in Hall as [(<- & <- & Hlen) Hall].
    cbn [add_submissions].
    rewrite add_submission_returns by (rewrite (start_initialised _ _ v); [lia | done]).
    destruct (IH (Py.final (add_submission self sub)) (merge v (extra sub)))
      as (self' & Hrun & Hvec).
    + by rewrite vector_add_submission, (start_initialised _ _ v).
    + by rewrite length_merge.
    + exists self'. done.
Qed.

Lemma add_submissions_fresh (subs : list Submission) self u p n :
  vector self u p = None →
  subs ≠ [] →
  Forall (λ sub, user sub = u ∧ task sub = p ∧ length (extra sub) = n) subs →
  ∃ self', add_submissions self subs = Py.Returned tt self'
           ∧ vector self' u p = Some (foldl merge (replicate n 0%Qc) (extra <$> subs)).
Proof.
  intros Hv Hne Hall. destruct subs as [|sub subs]; [done|].
  apply Forall_cons in Hall as [(<- & <- & <-) Hall].
  cbn [add_submissions fmap list_fmap foldl].
  rewrite add_submission_returns
    by (rewrite start_fresh by done; by rewrite length_replicate).
  apply add_submissions_initialised.
  - by rewrite vector_add_submission, start_fresh.
  - by rewrite length_merge, length_replicate.
Qed.

Lemma components_nondecreasing self sub u p v i x :
  vector self u p = Some v → v !! i = Some x →
  ∃ v' y, vector (Py.final (add_submission self sub)) u p = Some v'
          ∧ v' !! i = Some y ∧ (x ≤ y)%Qc.
Proof.
  intros Hv Hx. destruct (decide ((u, p) = (user sub, task sub))) as [[= -> ->]|Hne].
  - rewrite vector_add_submission, (start_initialised _ _ v) by done.
    eexists _, _. split; [done|]. rewrite lookup_merge, Hx. split; [done|].
    destruct (extra sub !! i); [apply max_ge_l | apply Qcle_refl].
  - rewrite vector_add_submission_other by done.
    exists v, x. split_and!; [done..|apply Qcle_refl].
Qed.

(** C1 (as amended). Submissions for one pair that the ledger does not hold
    yet, all with the component count [n] of the first, are all applied; each
    component of the stored vector is the maximum of zero and that component
    over the submissions, whatever the order of application. And under any
    [add_submission], returning or raising, no stored component decreases. *)
Theorem ledger_componentwise_max self (subs : list Submission) u p n :
  vector self u p = None →
  subs ≠ [] →
  Forall (λ sub, user sub = u ∧ task sub = p ∧ length (extra sub) = n) subs →
  (∃ v, length v = n
      ∧ (∀ i x, v !! i = Some x → maximum_of x (0%Qc :: column i subs))
      ∧ (∀ subs', subs' ≡ₚ subs →
           ∃ self', add_submissions self subs' = Py.Returned tt self'
                    ∧ vector self' u p = Some v))
  ∧ (∀ self0 sub0 u0 p0 v0 i x,
       vector self0 u0 p0 = Some v0 → v0 !! i = Some x →
       ∃ v1 y, vector (Py.final (add_submission self0 sub0)) u0 p0 = Some v1
               ∧ v1 !! i = Some y ∧ (x ≤ y)%Qc).
Proof.
  intros Hfresh Hne Hall. split; [|intros *; apply components_nondecreasing].
  assert (∀ (l : list Submission) i x,
    foldl merge (replicate n 0%Qc) (extra <$> l) !! i = Some x →
    maximum_of x (0%Qc :: column i l)) as Hmax.
  { intros l i x Hx.
    assert (i < n) as Hi.
    { apply lookup_lt_Some in Hx. by rewrite length_foldl_merge, length_replicate in Hx. }
    rewrite (lookup_foldl_merge l _ i 0%Qc) in Hx by (by apply lookup_replicate_2).
    injection Hx as <-. apply maximum_of_foldl_max. }
  exists (foldl merge (replicate n 0%Qc) (extra <$> subs)). split_and!.
  - by rewrite length_foldl_merge, length_replicate.
  - apply Hmax.
  - intros subs' Hperm.
    destruct (add_submissions_fresh subs' self u p n) as (self' & Hrun & Hvec);
      [done | by intros ->; apply Permutation_nil_l in Hperm | by rewrite Hperm |].
    exists self'. split; [done|]. rewrite Hvec. f_equal.
    apply list_eq. intros i.
    destruct (foldl merge (replicate n 0%Qc) (extra <$> subs') !! i) as [x|] eqn:Hx.
    + assert (i < n) as Hi.
      { apply lookup_lt_Some in Hx. by rewrite length_foldl_merge, length_replicate in Hx. }
      destruct (lookup_lt_is_Some_2 (foldl merge (replicate n 0%Qc) (extra <$> subs)) i)
        as [y Hy]; [by rewrite length_foldl_merge, length_replicate|].
      rewrite Hy. f_equal.
      apply (maximum_of_unique x y (0%Qc :: column i subs') (0%Qc :: column i subs));
        [|by apply Hmax..].
      unfold column. by rewrite Hperm.
    + symmetry. apply lookup_ge_None. apply lookup_ge_None in Hx.
      by rewrite length_foldl_merge, length_replicate in *.
Qed.

(** C1 on the empty ledger and two submissions of two components. *)
Lemma ledger_componentwise_max_witness :
  ∃ v, length v = 2
     ∧ (∀ i x, v !! i = Some x →
          maximum_of x (0%Qc :: column i [Sample.first_try; Sample.second_try]))
     ∧ (∀ subs', subs' ≡ₚ [Sample.first_try; Sample.second_try] →
          ∃ self', add_submissions State.empty subs' = Py.Returned tt self'
                   ∧ vector self' "ann" "sum" = Some v).
Proof.
  apply (ledger_componentwise_max State.empty [Sample.first_try; Sample.second_try] "ann" "sum" 2).
  - reflexivity.
  - discriminate.
  - repeat constructor.
Defined.

(** C1 as stated fails: after the single submission [[-1]] the stored
    component is 0, which is not the maximum of the submitted components. *)
Lemma ledger_max_below_zero :
  ∃ self',
    add_submissions State.empty [Sample.negative] = Py.Returned tt self'
    ∧ vector self' "ann" "sum" = Some [0%Qc]
    ∧ column 0 [Sample.negative] = [Sample.num (-1)]
    ∧ ¬ maximum_of 0%Qc (column 0 [Sample.negative]).
Proof.
  eexists. split_and!; [reflexivity | reflexivity | reflexivity |].
  intros [Hin _]. apply list_elem_of_singleton in Hin. discriminate Hin.
Qed.

Lemma submissions_add_submission self sub k :
  k ∈ submissions self → k ∈ submissions (Py.final (add_submission self sub)).
Proof.
  intros Hk. rewrite add_submission_unfold. cbn zeta.
  case_decide; cbn [Py.final submissions]; [|done].
  apply elem_of_app. by left.
Qed.

Lemma submissions_add_submissions (subs : list Submission) self k :
  k ∈ submissions self → k ∈ submissions (Py.final (add_submissions self subs)).
Proof.
  revert self. induction subs as [|sub subs IH]; intros self Hk; [done|].
  cbn [add_submissions].
  pose proof (submissions_add_submission self sub k Hk) as Hk'.
  destruct (add_submission self sub) as [[] self'|e self']; cbn [Py.final] in *; auto.
Qed.

(** C2. Once [add_submission] has returned for a record, applying the same
    record again returns and leaves the score map, hence the vector of its
    pair, as it was; [has_submission] is true for the record, and stays true
    after any further applications to the ledger. *)
Theorem add_submission_idempotent self sub self1 :
  add_submission self sub = Py.Returned tt self1 →
  (∃ self2, add_submission self1 sub = Py.Returned tt self2
            ∧ state self2 = state self1
            ∧ vector self2 (user sub) (task sub) = vector self1 (user sub) (task sub))
  ∧ has_submission self1 sub = true
  ∧ ∀ subs : list Submission,
      has_submission (Py.final (add_submissions self1 subs)) sub = true.
Proof.
  intros Hadd.
  pose proof (vector_add_submission self sub) as Hvec.
  assert (length (extra sub) ≤ length (start self sub)) as Hlen.
  { rewrite add_submission_unfold in Hadd. cbn zeta in Hadd. by case_decide. }
  assert (key sub ∈ submissions self1) as Hkey.
  { rewrite add_submission_unfold in Hadd. cbn zeta in Hadd.
    rewrite decide_True in Hadd by done. injection Hadd as <-.
    cbn [submissions]. apply elem_of_app. right. by left. }
  assert (state self1 !! user sub
          = Some (<[task sub := merge (start self sub) (extra sub)]>
                    (default ∅ (state self !! user sub)))) as Hlook.
  { rewrite add_submission_unfold in Hadd. cbn zeta in Hadd.
    rewrite decide_True in Hadd by done. injection Hadd as <-.
    cbn [state]. by rewrite lookup_insert_eq. }
  rewrite Hadd in Hvec. cbn [Py.final] in Hvec.
  split_and!.
  - exists (Py.final (add_submission self1 sub)).
    assert (start self1 sub = merge (start self sub) (extra sub)) as Hstart
      by (by apply start_initialised).
    split; [apply add_submission_returns; by rewrite Hstart, length_merge|].
    assert (state (Py.final (add_submission self1 sub)) = state self1) as Hstate.
    { rewrite add_submission_unfold. cbn zeta.
      rewrite decide_True by (by rewrite Hstart, length_merge).
      cbn [Py.final state]. rewrite Hstart, merge_idemp, Hlook. cbn [from_option id].
      unfold id. rewrite insert_insert_eq. by apply insert_id. }
    split; [done|]. unfold vector. by rewrite Hstate.
  - unfold has_submission. by apply bool_decide_eq_true.
  - intros subs. unfold has_submission. apply bool_decide_eq_true.
    by apply submissions_add_submissions.
Qed.

(** C2 on a ledger that holds the pair and a one-component submission. *)
Lemma add_submission_idempotent_witness :
  (∃ self2, add_submission (Py.final (add_submission Sample.ledger Sample.short)) Sample.short
              = Py.Returned tt self2
            ∧ state self2 = state (Py.final (add_submission Sample.ledger Sample.short))
            ∧ vector self2 "ann" "sum"
              = vector (Py.final (add_submission Sample.ledger Sample.short)) "ann" "sum")
  ∧ has_submission (Py.final (add_submission Sample.ledger Sample.short)) Sample.short = true
  ∧ ∀ subs : list Submission,
      has_submission
        (Py.final (add_submissions (Py.final (add_submission Sample.ledger Sample.short)) subs))
        Sample.short = true.
Proof.
  apply (add_submission_idempotent Sample.ledger Sample.short). reflexivity.
Defined.

(** C5 (as amended). For a pair the ledger holds with vector [v] and a
    submission of another component count: the stored vector keeps its length,
    each stored component that has an incoming one becomes the maximum of the
    two and the others stay; with more incoming components the call raises
    [IndexError] and the key is not recorded, with fewer it returns and the key
    is recorded. *)
Theorem add_submission_length_mismatch self sub v :
  vector self (user sub) (task sub) = Some v →
  length (extra sub) ≠ length v →
  ∃ self' v',
    vector self' (user sub) (task sub) = Some v'
    ∧ length v' = length v
    ∧ (∀ i old, v !! i = Some old →
         v' !! i = Some (from_option (Py.max old) old (extra sub !! i)))
    ∧ if decide (length v < length (extra sub))
      then add_submission self sub = Py.Raised Py.IndexError self'
           ∧ submissions self' = submissions self
      else add_submission self sub = Py.Returned tt self'
           ∧ submissions self' = submissions self ++ [key sub].
Proof.
  intros Hv Hne.
  exists (Py.final (add_submission self sub)), (merge v (extra sub)).
  split_and!.
  - by rewrite vector_add_submission, (start_initialised _ _ v).
  - apply length_merge.
  - intros i old Hold. by rewrite lookup_merge, Hold.
  - rewrite add_submission_unfold. cbn zeta. rewrite (start_initialised _ _ v) by done.
    case_decide; [rewrite decide_False by lia | rewrite decide_True by lia]; done.
Qed.

(** C5 (as amended) on three incoming components against two stored ones. *)
Lemma add_submission_length_mismatch_witness :
  ∃ self' v',
    vector self' "ann" "sum" = Some v'
    ∧ length v' = 2
    ∧ (∀ i old, [Sample.num 1; Sample.num 2] !! i = Some old →
         v' !! i = Some (from_option (Py.max old) old (extra Sample.long !! i)))
    ∧ add_submission Sample.ledger Sample.long = Py.Raised Py.IndexError self'
    ∧ submissions self' = submissions Sample.ledger.
Proof.
  apply (add_submission_length_mismatch Sample.ledger Sample.long [Sample.num 1; Sample.num 2]).
  - reflexivity.
  - simpl. lia.
Defined.

(** C5 as stated fails: one incoming component against two stored ones is
    applied without an error, as an update of the first component only. *)
Lemma shorter_vector_applied_silently :
  vector Sample.ledger "ann" "sum" = Some [Sample.num 1; Sample.num 2]
  ∧ length (extra Sample.short) ≠ 2
  ∧ ∃ self', add_submission Sample.ledger Sample.short = Py.Returned tt self'
             ∧ vector self' "ann" "sum" = Some [Sample.num 5; Sample.num 2]
             ∧ has_submission self' Sample.short = true.
Proof.
  split_and!; [reflexivity | simpl; lia |].
  eexists. split_and!; reflexivity.
Qed.

End ledger.

(** ** Text and numbers *)

Section text.

Lemma int_str (n : Z) : Py.int (Py.str n) = Some n.
Proof.
  unfold Py.int, Py.str. rewrite NilZero.isi.
  - cbn. by rewrite DecimalZ.of_to.
  - destruct n; cbn; try discriminate. intros [= H]. by apply Unsigned.to_uint_nonnil in H.
  - destruct n; cbn; try discriminate. intros [= H]. by apply Unsigned.to_uint_nonnil in H.
Qed.

Lemma append_cons (a : ascii) (s r : string) : String a s +:+ r = String a (s +:+ r).
Proof. reflexivity. Qed.

Lemma append_empty_l (r : string) : "" +:+ r = r.
Proof. reflexivity. Qed.

(** One step of an induction on the digits of a number: the digit in front
    is not the separator. *)
Ltac skip_digit sep Hsep IH :=
  rewrite ?append_cons, ?append_empty_l; cbn [Py.before Py.after];
  first
    [ done
    | match goal with
      | |- context [Ascii.eqb ?c sep] => destruct (Ascii.eqb_spec c sep) as [<-|_]
      end; [discriminate Hsep | by rewrite IH] ].

Lemma before_uint (sep : ascii) (d : Decimal.uint) (rest : string) :
  Py.not_digit sep →
  Py.before sep (NilEmpty.string_of_uint d +:+ rest)
  = NilEmpty.string_of_uint d +:+ Py.before sep rest.
Proof.
  intros Hsep. induction d as [|d IH|d IH|d IH|d IH|d IH|d IH|d IH|d IH|d IH|d IH];
    cbn [NilEmpty.string_of_uint]; skip_digit sep Hsep IH.
Qed.

Lemma after_uint (sep : ascii) (d : Decimal.uint) (rest : string) :
  Py.not_digit sep →
  Py.after sep (NilEmpty.string_of_uint d +:+ rest) = Py.after sep rest.
Proof.
  intros Hsep. induction d as [|d IH|d IH|d IH|d IH|d IH|d IH|d IH|d IH|d IH|d IH];
    cbn [NilEmpty.string_of_uint]; skip_digit sep Hsep IH.
Qed.

(** [str] of a number that is not negative is a string of digits. *)
Lemma str_nonneg (n : Z) :
  (0 ≤ n)%Z → ∃ d, d ≠ Decimal.Nil ∧ Py.str n = NilEmpty.string_of_uint d.
Proof.
  intros Hn. destruct n as [|p|p]; [| |lia].
  - by exists (Decimal.D0 Decimal.Nil).
  - exists (Pos.to_uint p). split; [apply Unsigned.to_uint_nonnil|].
    unfold Py.str. cbn. pose proof (Unsigned.to_uint_nonnil p).
    by destruct (Pos.to_uint p).
Qed.

Lemma before_str (sep : ascii) (n : Z) (rest : string) :
  Py.not_digit sep → (0 ≤ n)%Z →
  Py.before sep (Py.str n +:+ rest) = Py.str n +:+ Py.before sep rest.
Proof.
  intros Hsep (d & _ & ->)%str_nonneg. by apply before_uint.
Qed.

Lemma after_str (sep : ascii) (n : Z) (rest : string) :
  Py.not_digit sep → (0 ≤ n)%Z →
  Py.after sep (Py.str n +:+ rest) = Py.after sep rest.
Proof.
  intros Hsep (d & _ & ->)%str_nonneg. by apply after_uint.
Qed.

Lemma append_empty_r (s : string) : s +:+ "" = s.
Proof. induction s; rewrite ?append_cons; [done | congruence]. Qed.

End text.

Section descriptors.
Import Scoreboard.

Lemma low_bound_render (d : descriptor) :
  (0 ≤ low d)%Z → Py.int (Py.before "-" (render d)) = Some (low d).
Proof.
  intros Hd. destruct d as [r|l h]; cbn [render low] in *.
  - rewrite <-(append_empty_r (Py.str r)), before_str by done.
    cbn [Py.before]. by rewrite append_empty_r, int_str.
  - rewrite before_str by done. rewrite append_cons. cbn [Py.before Ascii.eqb Bool.eqb].
    by rewrite append_empty_r, int_str.
Qed.

Lemma parse_render (d : descriptor) :
  (0 ≤ low d)%Z → parse (render d) = Some d.
Proof.
  intros Hd. unfold parse. destruct d as [r|l h]; cbn [render low] in *.
  - rewrite <-(append_empty_r (Py.str r)), after_str by done.
    cbn [Py.after]. rewrite append_empty_r, int_str. done.
  - rewrite after_str, before_str by done. rewrite append_cons, append_empty_l.
    cbn [Py.before Py.after Ascii.eqb Bool.eqb].
    rewrite append_empty_r, !int_str. done.
Qed.

Lemma render_not_unknown (d : descriptor) : (0 ≤ low d)%Z → render d ≠ "?".
Proof.
  intros Hd H. pose proof (low_bound_render d Hd) as Hl. rewrite H in Hl. discriminate Hl.
Qed.

End descriptors.

(** ** Movement against the previous snapshot *)

Section movement.
Import Scoreboard.
Implicit Types (self : Scoreboard.t) (id : string) (d : descriptor).

Lemma get_result_rendered self id (old new : descriptor) :
  ok self = true →
  old_positions self !! id = Some (render old) →
  positions self !! id = Some (render new) →
  (0 ≤ low old)%Z → (0 ≤ low new)%Z →
  get_result self id =
    inr (if decide (low new < low old)%Z then "↑"
         else if decide (low old < low new)%Z then "↓" else "",
         render new).
Proof.
  intros Hok Hold Hnew Hlo Hln. unfold get_result.
  rewrite Hok, Hold, Hnew. cbn -[Py.int Py.before].
  rewrite decide_False by (by apply render_not_unknown).
  rewrite !low_bound_render by done.
  repeat case_decide; done.
Qed.

(** C6. With [ok] set and a current descriptor for the participant: without
    an entry in the previous snapshot the symbol is empty; with previous and
    current descriptors the symbol is "moved up" when the current low bound is
    strictly lower, "moved down" when it is strictly higher, and empty when
    the low bounds are equal. The current descriptor is returned in all cases. *)
Theorem get_result_movement self id (new_pos : string) :
  ok self = true →
  positions self !! id = Some new_pos →
  (old_positions self !! id = None → get_result self id = inr ("", new_pos))
  ∧ (∀ old new : descriptor,
       old_positions self !! id = Some (render old) → new_pos = render new →
       (0 ≤ low old)%Z → (0 ≤ low new)%Z →
       ((low new < low old)%Z → get_result self id = inr ("↑", new_pos))
       ∧ ((low old < low new)%Z → get_result self id = inr ("↓", new_pos))
       ∧ (low new = low old → get_result self id = inr ("", new_pos))).
Proof.
  intros Hok Hnew. split.
  - intros Hold. unfold get_result. rewrite Hok, Hold, Hnew. done.
  - intros old new Hold -> Hlo Hln.
    rewrite (get_result_rendered self id old new) by done.
    split_and!; intros; repeat case_decide; first [done | lia].
Qed.

(** C6 for a participant ranked "3" now and "2-3" before. *)
Lemma get_result_movement_witness :
  (old_positions Sample.board !! "cat" = None →
     get_result Sample.board "cat" = inr ("", "3"))
  ∧ (∀ old new : descriptor,
       old_positions Sample.board !! "cat" = Some (render old) → "3" = render new →
       (0 ≤ low old)%Z → (0 ≤ low new)%Z →
       ((low new < low old)%Z → get_result Sample.board "cat" = inr ("↑", "3"))
       ∧ ((low old < low new)%Z → get_result Sample.board "cat" = inr ("↓", "3"))
       ∧ (low new = low old → get_result Sample.board "cat" = inr ("", "3"))).
Proof.
  apply (get_result_movement Sample.board "cat" "3"); reflexivity.
Defined.

(** The movements the specification lists: from "3" to "1" is up, from "1"
    to "3" is down, "2-3" twice is no movement, and a participant without a
    previous entry has no movement. *)
Example movement_examples :
  let board old new :=
    {| ok := true; positions := {[ "ann" := new ]}; old_positions := old |} in
  get_result (board {[ "ann" := "3" ]} "1") "ann" = inr ("↑", "1")
  ∧ get_result (board {[ "ann" := "1" ]} "3") "ann" = inr ("↓", "3")
  ∧ get_result (board {[ "ann" := "2-3" ]} "2-3") "ann" = inr ("", "2-3")
  ∧ get_result (board ∅ "2-3") "ann" = inr ("", "2-3").
Proof. split_and!; reflexivity. Qed.

(** C7. When the totals map is [None] or empty, the engine is not OK and
    [get_result] returns the empty symbol and the descriptor "?" for every
    participant, without raising. *)
Theorem not_ok_unknown (scores : option (gmap string (gmap string Qc)))
    (scoreboard_json : option (gmap string string)) id :
  scores = None ∨ scores = Some ∅ →
  ok (init scores scoreboard_json) = false
  ∧ get_result (init scores scoreboard_json) id = inr ("", "?").
Proof.
  intros [-> | ->]; split; reflexivity.
Qed.

(** C7 for [Scoreboard(None)]. *)
Lemma not_ok_unknown_witness :
  ok (init None (Some Sample.snapshot)) = false
  ∧ get_result (init None (Some Sample.snapshot)) "ann" = inr ("", "?").
Proof.
  apply (not_ok_unknown None (Some Sample.snapshot) "ann"). left. reflexivity.
Defined.

Lemma get_result_not_ok self id : ok self = false → get_result self id = inr ("", "?").
Proof. intros H. unfold get_result. by rewrite H. Qed.

Lemma get_result_absent self id :
  ok self = true → positions self !! id = None → get_result self id = inl Py.KeyError.
Proof. intros Hok Hpos. unfold get_result. by rewrite Hok, Hpos. Qed.

End movement.

(** ** The retrying fetcher *)

Section fetcher.
Import DataFetcher.
Context {J : Type}.
Implicit Types (self : config) (server : nat → attempt J).

Lemma attempts_faults self (m i : nat) (delay : Qc) (slept : list Qc) :
  (m ≠ 0 → Z.of_nat (i + m) = retries self) →
  attempts self (λ _, Fault (J:=J)) (seq i m) delay slept
  = (None, slept ++ ((λ k, delay * retry_delay_exponent self ^ k)%Qc <$> seq 0 (m - 1))).
Proof.
  revert i delay slept. induction m as [|m IH]; intros i delay slept Hn.
  - cbn. by rewrite app_nil_r.
  - cbn [seq attempts]. destruct m as [|m].
    + rewrite decide_False by lia. cbn. by rewrite app_nil_r.
    + rewrite decide_True by lia. rewrite IH by lia.
      f_equal. rewrite <-app_assoc. f_equal.
      replace (S (S m) - 1) with (S m) by lia.
      replace (S m - 1) with m by lia.
      cbn [seq fmap list_fmap app]. f_equal.
      * cbn. by rewrite Qcmult_1_r.
      * rewrite <-fmap_S_seq, <-list_fmap_compose. apply list_fmap_ext.
        intros _ k _. cbn. by rewrite Qcmult_assoc.
Qed.

Lemma get_request_faults self :
  _get_request self (λ _, Fault (J:=J)) = (None, backoff_schedule self).
Proof.
  unfold _get_request, backoff_schedule. rewrite attempts_faults; [done|]. lia.
Qed.

Lemma attempts_bad_status self server (indices : list nat) (delay : Qc) (slept : list Qc) :
  (∀ i, ∃ status_code json, server i = Response status_code json ∧ status_code ≠ 200%Z) →
  attempts self server indices delay slept = (None, slept).
Proof.
  intros Hbad. revert delay slept. induction indices as [|i rest IH]; intros delay slept; [done|].
  cbn [attempts]. destruct (Hbad i) as (code & json & -> & Hne).
  by rewrite decide_True.
Qed.

Lemma get_request_bad_status self server :
  (∀ i, ∃ status_code json, server i = Response status_code json ∧ status_code ≠ 200%Z) →
  _get_request self server = (None, []).
Proof. intros H. by apply attempts_bad_status. Qed.

End fetcher.

(** C4, the code at the failing input. With three attempts, a first delay of
    5 and an exponent of 2, a server that answers 500 every time is asked
    three times with nothing slept in between, where the backoff rule asks for
    delays 5 and 10; when every attempt raises instead, 5 and 10 are slept. *)
Theorem bad_status_retried_without_delay :
  DataFetcher._get_request Sample.fetcher Sample.always_500 = (None, [])
  ∧ DataFetcher._get_request Sample.fetcher (λ _, DataFetcher.Fault (J:=unit))
    = (None, [Sample.num 5; Q2Qc 10])
  ∧ Qcanon.this <$> DataFetcher.backoff_schedule Sample.fetcher = [5 # 1; 10 # 1].
Proof. split_and!; reflexivity. Qed.

(** ** Ranking *)

Section sorted_facts.
Context {A : Type} (le : A → A → Prop) `{!∀ x y, Decision (le x y)}.

Lemma insert_sorted_Permutation (x : A) (l : list A) : Py.insert_sorted le x l ≡ₚ x :: l.
Proof.
  induction l as [|y l IH]; [done|]. cbn [Py.insert_sorted].
  case_decide; [done|]. rewrite IH. apply perm_swap.
Qed.

Lemma sorted_Permutation (l : list A) : Py.sorted le l ≡ₚ l.
Proof.
  induction l as [|x l IH]; [done|]. cbn [Py.sorted foldr].
  rewrite insert_sorted_Permutation. by f_equiv.
Qed.

Context (le_total : ∀ x y, le x y ∨ le y x) (le_trans : ∀ x y z, le x y → le y z → le x z).

Lemma insert_sorted_StronglySorted (x : A) (l : list A) :
  StronglySorted le l → StronglySorted le (Py.insert_sorted le x l).
Proof.
  induction 1 as [|y l Hl IH Hy]; cbn [Py.insert_sorted].
  - repeat constructor.
  - case_decide as Hxy.
    + constructor; [by constructor|]. constructor; [done|].
      eapply Forall_impl; [exact Hy|]. intros z Hz. by eapply le_trans.
    + constructor; [done|]. rewrite insert_sorted_Permutation.
      constructor; [|done]. by destruct (le_total x y).
Qed.

Lemma sorted_StronglySorted (l : list A) : StronglySorted le (Py.sorted le l).
Proof.
  induction l as [|x l IH]; [constructor|]. by apply insert_sorted_StronglySorted.
Qed.

End sorted_facts.

Section assign.
Import Scoreboard.
Implicit Types (groups : list (Qc * list string)) (people : list string)
  (acc : gmap string string) (id : string).

Lemma lookup_foldl_insert people acc (s : string) id :
  foldl (λ acc id, <[id := s]> acc) acc people !! id
  = if decide (id ∈ people) then Some s else acc !! id.
Proof.
  revert acc. induction people as [|p people IH]; intros acc; [done|].
  cbn [foldl]. rewrite IH. destruct (decide (id ∈ people)) as [Hin|Hin].
  - rewrite decide_True by (by right). done.
  - destruct (decide (p = id)) as [->|Hne].
    + rewrite decide_True by (by left). apply lookup_insert_eq.
    + rewrite decide_False by (by intros [?|?]%elem_of_cons). by apply lookup_insert_ne.
Qed.

Lemma join_cons {A} (l : list A) (ls : list (list A)) : mjoin (l :: ls) = l ++ mjoin ls.
Proof. reflexivity. Qed.

Lemma assign_lookup_notin groups (ptr : Z) acc id :
  id ∉ mjoin groups.*2 → assign ptr groups acc !! id = acc !! id.
Proof.
  revert ptr acc. induction groups as [|[t people] groups IH]; intros ptr acc Hid; [done|].
  cbn [assign]. simpl in Hid. rewrite elem_of_app in Hid.
  rewrite IH by tauto. rewrite lookup_foldl_insert. rewrite decide_False by tauto. done.
Qed.

Lemma assign_lookup_in (g1 g2 : list (Qc * list string)) (t : Qc) people (ptr : Z) acc id :
  id ∈ people → id ∉ mjoin g2.*2 →
  assign ptr (g1 ++ (t, people) :: g2) acc !! id
  = Some (position (ptr + Z.of_nat (length (mjoin g1.*2))) (Z.of_nat (length people))).
Proof.
  intros Hin Hout. revert ptr acc. induction g1 as [|[t1 p1] g1 IH]; intros ptr acc.
  - cbn [app assign]. rewrite assign_lookup_notin by done.
    rewrite lookup_foldl_insert, decide_True by done. simpl. by rewrite Z.add_0_r.
  - cbn [app assign]. rewrite IH. do 2 f_equal.
    rewrite fmap_cons, join_cons, length_app. cbn [snd]. lia.
Qed.

Lemma find_group groups (k : nat) :
  0 < k ≤ length (mjoin groups.*2) →
  ∃ g1 t people g2, groups = g1 ++ (t, people) :: g2
    ∧ length (mjoin g1.*2) < k ≤ length (mjoin g1.*2) + length people.
Proof.
  induction groups as [|[t people] groups IH] using rev_ind; [simpl; lia|].
  rewrite fmap_app, join_app, length_app. simpl. rewrite app_nil_r. intros Hk.
  destruct (decide (k ≤ length (mjoin groups.*2))) as [Hle|Hgt].
  - destruct IH as (g1 & t' & people' & g2 & -> & Hin); [lia|].
    exists g1, t', people', (g2 ++ [(t, people)]). by rewrite <-app_assoc.
  - exists groups, t, people, []. split; [done | lia].
Qed.

End assign.

Section groups.
Import Scoreboard.
Implicit Types (items : list (string * gmap string Qc)) (points : gmap Qc (list string))
  (groups : list (Qc * list string)) (people : list string) (id : string) (t : Qc).

Lemma points_ids items :
  mjoin (map_to_list (foldl append_id ∅ items)).*2 ≡ₚ items.*1.
Proof.
  induction items as [|[id st] items IH] using rev_ind.
  - simpl. by rewrite map_to_list_empty.
  - rewrite foldl_app, fmap_app. cbn [foldl fmap list_fmap].
    set (points := foldl append_id ∅ items) in *.
    unfold append_id. cbn [fst snd].
    destruct (points !! total_score st) as [l|] eqn:Hl; cbn [default from_option].
    + rewrite <-insert_delete_eq.
      rewrite map_to_list_insert by apply lookup_delete_eq.
      rewrite <-IH. rewrite <-(map_to_list_delete points _ _ Hl).
      simpl. rewrite <-!app_assoc. f_equiv. apply Permutation_app_comm.
    + rewrite map_to_list_insert by done. simpl. rewrite <-IH.
      apply Permutation_cons_append.
Qed.

Lemma points_members items t people :
  foldl append_id ∅ items !! t = Some people →
  people ≠ [] ∧ ∀ id, id ∈ people → ∃ st, (id, st) ∈ items ∧ total_score st = t.
Proof.
  revert people. induction items as [|[id st] items IH] using rev_ind; intros people.
  - cbn. by rewrite lookup_empty.
  - rewrite foldl_app. cbn [foldl]. set (points := foldl append_id ∅ items) in *.
    unfold append_id. cbn [fst snd].
    destruct (decide (total_score st = t)) as [<-|Hne].
    + rewrite lookup_insert_eq. intros [= <-]. split; [by destruct (default _ _)|].
      intros id' [Hin| ->%list_elem_of_singleton]%elem_of_app.
      * destruct (points !! total_score st) as [l|] eqn:Hl; [|by apply elem_of_nil in Hin].
        destruct (IH l eq_refl) as [_ Hmem].
        destruct (Hmem id' Hin) as (st' & Hst' & Ht). exists st'.
        split; [apply elem_of_app; by left | done].
      * exists st. split; [apply elem_of_app; right; by left | done].
    + rewrite lookup_insert_ne by done. intros Hp.
      destruct (IH people Hp) as [Hnil Hmem]. split; [done|].
      intros id' Hin. destruct (Hmem id' Hin) as (st' & Hst' & Ht).
      exists st'. split; [apply elem_of_app; by left | done].
Qed.

End groups.

Section ranking.
Import Scoreboard.
Implicit Types (people : list string) (id : string) (t : Qc) (st : gmap string Qc).

Lemma descending_strict (l : list (Qc * list string)) :
  StronglySorted descending l → NoDup l.*1 →
  StronglySorted (λ a b, (b.1 < a.1)%Qc) l.
Proof.
  induction 1 as [|x l Hl IH Hx]; intros Hnd; [constructor|].
  rewrite fmap_cons in Hnd. apply NoDup_cons in Hnd as [Hnotin Hnd].
  constructor; [by apply IH|].
  apply Forall_forall. intros y Hy. rewrite Forall_forall in Hx.
  destruct (Qcle_lt_or_eq _ _ (Hx y Hy)) as [Hlt|Heq]; [done|].
  destruct Hnotin. rewrite <-Heq. by apply list_elem_of_fmap_2.
Qed.

Lemma NoDup_fst_functional {A B} (l : list (A * B)) x y1 y2 :
  NoDup l.*1 → (x, y1) ∈ l → (x, y2) ∈ l → y1 = y2.
Proof.
  induction l as [|[a b] l IH]; intros Hnd H1 H2; [by apply elem_of_nil in H1|].
  rewrite fmap_cons in Hnd. apply NoDup_cons in Hnd as [Hnotin Hnd].
  apply elem_of_cons in H1 as [H1|H1]; apply elem_of_cons in H2 as [H2|H2]; simplify_eq.
  - done.
  - exfalso. apply Hnotin. by apply (list_elem_of_fmap_2 fst) in H2.
  - exfalso. apply Hnotin. by apply (list_elem_of_fmap_2 fst) in H1.
  - by apply IH.
Qed.

Context (items : list (string * gmap string Qc)) (Hnodup : NoDup items.*1).

#[local] Abbreviation points := (foldl append_id ∅ items).
#[local] Abbreviation groups := (Py.sorted descending (map_to_list points)).

Lemma groups_perm : groups ≡ₚ map_to_list points.
Proof. apply sorted_Permutation. Qed.

Lemma elem_of_groups t people : (t, people) ∈ groups ↔ points !! t = Some people.
Proof. rewrite groups_perm. apply elem_of_map_to_list. Qed.

Lemma groups_keys_NoDup : NoDup groups.*1.
Proof. rewrite groups_perm. apply NoDup_fst_map_to_list. Qed.

Lemma groups_ids : mjoin groups.*2 ≡ₚ items.*1.
Proof. rewrite groups_perm. apply points_ids. Qed.

Lemma groups_strict : StronglySorted (λ a b, (b.1 < a.1)%Qc) groups.
Proof.
  apply descending_strict; [|apply groups_keys_NoDup].
  apply sorted_StronglySorted.
  - intros [a ?] [b ?]. unfold descending. cbn.
    destruct (Qclt_le_dec a b); [right; by apply Qclt_le_weak | by left].
  - intros x y z. unfold descending. intros ??. by eapply Qcle_trans.
Qed.

Lemma group_member t people id :
  (t, people) ∈ groups → id ∈ people → ∃ st, (id, st) ∈ items ∧ total_score st = t.
Proof.
  intros Hg%elem_of_groups Hid. by destruct (points_members items t people Hg) as [_ H]; apply H.
Qed.

Lemma group_of id st :
  (id, st) ∈ items →
  ∃ g1 people g2, groups = g1 ++ (total_score st, people) :: g2 ∧ id ∈ people.
Proof using Hnodup.
  intros Hin.
  assert (id ∈ mjoin groups.*2) as Hid.
  { rewrite groups_ids. by apply (list_elem_of_fmap_2 fst _ (id, st)). }
  apply list_elem_of_join in Hid as (people & Hid & Hpeople).
  apply list_elem_of_fmap in Hpeople as ([t people'] & Heq & Hg).
  cbn [snd] in Heq. subst people'.
  destruct (group_member t people id Hg Hid) as (st' & Hst' & <-).
  rewrite (NoDup_fst_functional items id st st' Hnodup Hin Hst').
  apply list_elem_of_split in Hg as (g1 & g2 & Hg). by exists g1, people, g2.
Qed.

Section split.
Context (g1 g2 : list (Qc * list string)) (t : Qc) (people : list string)
        (Hsplit : groups = g1 ++ (t, people) :: g2).

Lemma split_NoDup : NoDup (mjoin g1.*2 ++ people ++ mjoin g2.*2).
Proof using Hnodup Hsplit.
  pose proof groups_ids as Hids. rewrite Hsplit in Hids.
  rewrite fmap_app, fmap_cons, join_app, join_cons in Hids. cbn [snd] in Hids.
  by rewrite Hids.
Qed.

Lemma split_keys_before g : g ∈ g1 → (t < g.1)%Qc.
Proof using Hsplit.
  pose proof groups_strict as Hs. rewrite Hsplit in Hs.
  intros Hg. apply (StronglySorted_app_1_elem_of _ _ _ g (t, people) Hs); [done | by left].
Qed.

Lemma split_keys_after g : g ∈ g2 → (g.1 < t)%Qc.
Proof using Hsplit.
  pose proof groups_strict as Hs. rewrite Hsplit in Hs.
  apply StronglySorted_app_1_r in Hs. apply StronglySorted_cons in Hs as [Hs _].
  rewrite Forall_forall in Hs. apply Hs.
Qed.

Lemma split_in_groups g : g ∈ g1 ∨ g = (t, people) ∨ g ∈ g2 ↔ g ∈ groups.
Proof using Hsplit. rewrite Hsplit, elem_of_app, elem_of_cons. tauto. Qed.

Lemma group_size : length people = level items t.
Proof using Hnodup Hsplit.
  unfold level. rewrite <-(length_fmap fst (filter _ items)).
  apply Permutation_length, NoDup_Permutation.
  - pose proof split_NoDup as H. apply NoDup_app in H as (_ & _ & H).
    by apply NoDup_app in H as (H & _ & _).
  - eapply sublist_NoDup; [exact Hnodup | apply fmap_sublist, sublist_filter].
  - intros id. split.
    + intros Hid. destruct (group_member t people id) as (st & Hst & Ht); [|done|].
      { apply split_in_groups. auto. }
      apply list_elem_of_fmap. exists (id, st). split; [done|].
      apply list_elem_of_filter. done.
    + intros ([id' st] & -> & [Ht Hst]%list_elem_of_filter)%list_elem_of_fmap.
      cbn [fst snd] in *.
      destruct (group_of id' st Hst) as (h1 & people' & h2 & Hg & Hid).
      assert ((t, people') ∈ groups) as Hin.
      { rewrite Hg, <-Ht. apply elem_of_app. right. by left. }
      assert ((t, people) ∈ groups) as Hin' by (apply split_in_groups; auto).
      apply elem_of_groups in Hin, Hin'. by simplify_eq.
Qed.

Lemma group_before : length (mjoin g1.*2) = above items t.
Proof using Hnodup Hsplit.
  unfold above. rewrite <-(length_fmap fst (filter _ items)).
  apply Permutation_length, NoDup_Permutation.
  - pose proof split_NoDup as H. by apply NoDup_app in H as (H & _ & _).
  - eapply sublist_NoDup; [exact Hnodup | apply fmap_sublist, sublist_filter].
  - intros id. split.
    + intros (people' & Hid & ([t' p] & Heq & Hg)%list_elem_of_fmap)%list_elem_of_join.
      cbn [snd] in Heq. subst people'.
      destruct (group_member t' p id) as (st & Hst & Ht); [|done|].
      { apply split_in_groups. auto. }
      apply list_elem_of_fmap. exists (id, st). split; [done|].
      apply list_elem_of_filter. split; [|done]. cbn [snd]. rewrite Ht.
      by apply (split_keys_before (t', p)).
    + intros ([id' st] & -> & [Ht Hst]%list_elem_of_filter)%list_elem_of_fmap.
      cbn [fst snd] in *.
      destruct (group_of id' st Hst) as (h1 & people' & h2 & Hg & Hid).
      assert ((total_score st, people') ∈ groups) as Hin.
      { rewrite Hg. apply elem_of_app. right. by left. }
      apply split_in_groups in Hin as [Hin|[Hin|Hin]].
      * apply list_elem_of_join. exists people'. split; [done|].
        by apply (list_elem_of_fmap_2 snd _ (total_score st, people')).
      * injection Hin as Heq _. rewrite Heq in Ht. by apply Qclt_not_eq in Ht.
      * apply split_keys_after in Hin. cbn [fst] in Hin.
        destruct (Qclt_not_le _ _ Ht). by apply Qclt_le_weak.
Qed.

Lemma split_lookup id :
  id ∈ people →
  rank_items items !! id
  = Some (position (Z.of_nat (above items t)) (Z.of_nat (level items t))).
Proof using Hnodup Hsplit.
  intros Hid. unfold rank_items. rewrite Hsplit.
  rewrite assign_lookup_in; [by rewrite group_before, group_size | done |].
  pose proof split_NoDup as H. apply NoDup_app in H as (_ & _ & H).
  apply NoDup_app in H as (_ & H & _). by apply H.
Qed.

End split.

Lemma rank_items_lookup id st :
  (id, st) ∈ items →
  rank_items items !! id
  = Some (position (Z.of_nat (above items (total_score st)))
                   (Z.of_nat (level items (total_score st)))).
Proof using Hnodup.
  intros Hin. destruct (group_of id st Hin) as (g1 & people & g2 & Hg & Hid).
  by eapply split_lookup.
Qed.

Lemma rank_items_absent id : id ∉ items.*1 → rank_items items !! id = None.
Proof.
  intros Hid. unfold rank_items. rewrite assign_lookup_notin; [done|].
  by rewrite groups_ids.
Qed.

Lemma rank_items_cover (k : nat) :
  0 < k ≤ length items →
  ∃ id st, (id, st) ∈ items
    ∧ above items (total_score st) < k
        ≤ above items (total_score st) + level items (total_score st).
Proof using Hnodup.
  intros Hk.
  destruct (find_group groups k) as (g1 & t & people & g2 & Hg & Hrange).
  { by rewrite groups_ids, length_fmap. }
  destruct people as [|id people]; [cbn in Hrange; lia|].
  destruct (group_member t (id :: people) id) as (st & Hst & <-); [|by left|].
  { rewrite Hg. apply elem_of_app. right. by left. }
  exists id, st. split; [done|].
  by rewrite <-(group_before g1 g2 _ (id :: people)), <-(group_size g1 g2 _ (id :: people)).
Qed.

End ranking.

Section counts.
Context {A : Type} (P Q R : A → Prop)
  `{!∀ x, Decision (P x), !∀ x, Decision (Q x), !∀ x, Decision (R x)}.

Lemma length_filter_disjoint (l : list A) :
  (∀ x, P x → Q x → False) → (∀ x, P x → R x) → (∀ x, Q x → R x) →
  length (filter P l) + length (filter Q l) ≤ length (filter R l).
Proof.
  intros HPQ HPR HQR. induction l as [|x l IH]; [done|].
  rewrite !filter_cons.
  destruct (decide (P x)), (decide (Q x)), (decide (R x)); cbn [length]; naive_solver lia.
Qed.

End counts.

Section partition.
Import Scoreboard.
Implicit Types (scores : gmap string (gmap string Qc)) (id : string) (t : Qc).

Lemma position_expected (b n : nat) :
  1 ≤ n → position (Z.of_nat b) (Z.of_nat n) = render (expected b n).
Proof.
  intros Hn. unfold position, expected.
  destruct (decide (1 < n)); [rewrite decide_True by lia | rewrite decide_False by lia]; done.
Qed.

Lemma low_expected (b n : nat) : low (expected b n) = (Z.of_nat b + 1)%Z.
Proof. unfold expected. by case_decide. Qed.

Lemma high_expected (b n : nat) : 1 ≤ n → high (expected b n) = (Z.of_nat b + Z.of_nat n)%Z.
Proof. unfold expected. case_decide; cbn; lia. Qed.

Lemma above_level_le (items : list (string * gmap string Qc)) t :
  above items t + level items t ≤ length items.
Proof.
  unfold above, level.
  etrans; [apply (length_filter_disjoint _ _ (λ _, True))|apply length_filter]; try done.
  intros x H1 H2. rewrite H2 in H1. by apply Qclt_not_eq in H1.
Qed.

Lemma above_level_lt (items : list (string * gmap string Qc)) t1 t2 :
  (t2 < t1)%Qc → above items t1 + level items t1 ≤ above items t2.
Proof.
  intros Hlt. unfold above, level. apply length_filter_disjoint.
  - intros x H1 H2. rewrite H2 in H1. by apply Qclt_not_eq in H1.
  - intros x H1. by eapply Qclt_trans.
  - intros x H1. by rewrite H1.
Qed.

Lemma level_pos (items : list (string * gmap string Qc)) id st :
  (id, st) ∈ items → 1 ≤ level items (total_score st).
Proof.
  intros Hin. unfold level.
  assert ((id, st) ∈ filter (λ item, total_score item.2 = total_score st) items) as H
    by (by apply list_elem_of_filter).
  destruct (filter _ items); [by apply elem_of_nil in H | cbn; lia].
Qed.

Lemma positions_init scores scoreboard_json :
  scores ≠ ∅ →
  positions (init (Some scores) scoreboard_json) = rank_items (map_to_list scores).
Proof. intros H. unfold init. by rewrite decide_False. Qed.

Lemma ok_init scores scoreboard_json :
  scores ≠ ∅ → ok (init (Some scores) scoreboard_json) = true.
Proof. intros H. unfold init. by rewrite decide_False. Qed.

Lemma positions_present scores scoreboard_json id st :
  scores ≠ ∅ → scores !! id = Some st →
  positions (init (Some scores) scoreboard_json) !! id
  = Some (render (expected (better scores (total_score st)) (tied scores (total_score st)))).
Proof.
  intros Hne Hst. rewrite positions_init by done.
  apply elem_of_map_to_list in Hst.
  rewrite (rank_items_lookup _ (NoDup_fst_map_to_list scores) id st Hst).
  rewrite position_expected; [done|]. by eapply level_pos.
Qed.

Lemma positions_absent scores scoreboard_json id :
  scores ≠ ∅ → scores !! id = None →
  positions (init (Some scores) scoreboard_json) !! id = None.
Proof.
  intros Hne Hst. rewrite positions_init by done. apply rank_items_absent.
  intros ([id' st] & -> & Hin%elem_of_map_to_list)%list_elem_of_fmap.
  cbn in Hst. congruence.
Qed.

Lemma descriptor_of_present scores scoreboard_json id st :
  scores ≠ ∅ → scores !! id = Some st →
  descriptor_of (init (Some scores) scoreboard_json) id
  = Some (expected (better scores (total_score st)) (tied scores (total_score st))).
Proof.
  intros Hne Hst. unfold descriptor_of. rewrite (positions_present _ _ _ st) by done.
  cbn. apply parse_render. rewrite low_expected. lia.
Qed.

Lemma descriptor_of_inv scores scoreboard_json id d :
  scores ≠ ∅ →
  descriptor_of (init (Some scores) scoreboard_json) id = Some d →
  ∃ st, scores !! id = Some st
        ∧ d = expected (better scores (total_score st)) (tied scores (total_score st)).
Proof.
  intros Hne Hd. destruct (scores !! id) as [st|] eqn:Hst.
  - exists st. split; [done|]. rewrite (descriptor_of_present _ _ _ st) in Hd by done. congruence.
  - unfold descriptor_of in Hd. by rewrite positions_absent in Hd.
Qed.

(** C3. For a non-empty totals map: [positions] has a descriptor exactly for
    the participants of the map; the descriptor of a participant is the rank
    [b + 1] when nobody else has the same total and the range from [b + 1] to
    [b + n] for a tie group of [n > 1], where [b] participants have a strictly
    higher total; every rank from 1 to the number of participants lies in some
    descriptor; two descriptors are equal or disjoint; each lies within 1 and
    the number of participants and is as wide as its tie group; a strictly
    higher total has a strictly lower range, and equal totals have the same
    descriptor. *)
Theorem rank_partition scores scoreboard_json :
  scores ≠ ∅ →
  let self := init (Some scores) scoreboard_json in
  (∀ id, is_Some (positions self !! id) ↔ is_Some (scores !! id))
  ∧ (∀ id st, scores !! id = Some st →
       positions self !! id
       = Some (render (expected (better scores (total_score st)) (tied scores (total_score st))))
       ∧ descriptor_of self id
         = Some (expected (better scores (total_score st)) (tied scores (total_score st))))
  ∧ (∀ k : Z, (1 ≤ k ≤ Z.of_nat (size scores))%Z →
       ∃ id d, descriptor_of self id = Some d ∧ (low d ≤ k ≤ high d)%Z)
  ∧ (∀ id1 id2 d1 d2,
       descriptor_of self id1 = Some d1 → descriptor_of self id2 = Some d2 →
       d1 = d2 ∨ (high d1 < low d2)%Z ∨ (high d2 < low d1)%Z)
  ∧ (∀ id st d, scores !! id = Some st → descriptor_of self id = Some d →
       (1 ≤ low d ≤ high d)%Z ∧ (high d ≤ Z.of_nat (size scores))%Z
       ∧ (high d - low d + 1)%Z = Z.of_nat (tied scores (total_score st))
       ∧ match d with
         | Single _ => tied scores (total_score st) = 1
         | Range _ _ => 1 < tied scores (total_score st)
         end)
  ∧ (∀ id1 id2 st1 st2 d1 d2,
       scores !! id1 = Some st1 → scores !! id2 = Some st2 →
       descriptor_of self id1 = Some d1 → descriptor_of self id2 = Some d2 →
       ((total_score st2 < total_score st1)%Qc → (high d1 < low d2)%Z)
       ∧ (total_score st1 = total_score st2 → d1 = d2)).
Proof.
  intros Hne self.
  assert (∀ id st, scores !! id = Some st → 1 ≤ tied scores (total_score st)) as Htied.
  { intros id st Hst. eapply level_pos. by apply elem_of_map_to_list. }
  assert (∀ t, better scores t + tied scores t ≤ size scores) as Hsize.
  { intros t. rewrite <-length_map_to_list. apply above_level_le. }
  assert (∀ id1 id2 st1 st2 d1 d2,
       scores !! id1 = Some st1 → scores !! id2 = Some st2 →
       descriptor_of self id1 = Some d1 → descriptor_of self id2 = Some d2 →
       ((total_score st2 < total_score st1)%Qc → (high d1 < low d2)%Z)
       ∧ (total_score st1 = total_score st2 → d1 = d2)) as Horder.
  { intros id1 id2 st1 st2 d1 d2 H1 H2 Hd1 Hd2.
    unfold self in Hd1, Hd2.
    rewrite (descriptor_of_present _ _ _ st1) in Hd1 by done.
    rewrite (descriptor_of_present _ _ _ st2) in Hd2 by done.
    injection Hd1 as <-. injection Hd2 as <-. split.
    - intros Hlt. rewrite high_expected, low_expected by eauto.
      pose proof (above_level_lt (map_to_list scores) _ _ Hlt). unfold better, tied. lia.
    - by intros ->. }
  split_and!.
  - intros id. destruct (scores !! id) as [st|] eqn:Hst.
    + unfold self. rewrite (positions_present _ _ _ st) by done. split; eauto.
    + unfold self. rewrite positions_absent by done. done.
  - intros id st Hst. split; [by apply positions_present | by apply descriptor_of_present].
  - intros k Hk.
    destruct (rank_items_cover (map_to_list scores) (NoDup_fst_map_to_list scores) (Z.to_nat k))
      as (id & st & Hst & Hrange).
    { rewrite length_map_to_list. lia. }
    apply elem_of_map_to_list in Hst. eexists id, _. split; [by apply descriptor_of_present|].
    rewrite high_expected, low_expected by eauto. unfold better, tied. lia.
  - intros id1 id2 d1 d2 Hd1 Hd2.
    destruct (descriptor_of_inv _ _ _ _ Hne Hd1) as (st1 & Hst1 & _).
    destruct (descriptor_of_inv _ _ _ _ Hne Hd2) as (st2 & Hst2 & _).
    destruct (Horder id1 id2 st1 st2 d1 d2) as [Hgt Heq]; [done..|].
    destruct (Horder id2 id1 st2 st1 d2 d1) as [Hlt _]; [done..|].
    destruct (Qclt_le_dec (total_score st2) (total_score st1)) as [H|H]; [auto|].
    destruct (Qcle_lt_or_eq _ _ H) as [H'|H']; auto.
  - intros id st d Hst Hd. unfold self in Hd.
    rewrite (descriptor_of_present _ _ _ st) in Hd by done. injection Hd as <-.
    pose proof (Htied id st Hst). pose proof (Hsize (total_score st)).
    rewrite high_expected, low_expected by done. split_and!; try lia.
    unfold expected. case_decide; lia.
  - exact Horder.
Qed.

(** C3 on three participants with totals 50, 50 and 30. *)
Lemma rank_partition_witness :
  let self := init (Some Sample.scores) None in
  (∀ id, is_Some (positions self !! id) ↔ is_Some (Sample.scores !! id))
  ∧ (∀ k : Z, (1 ≤ k ≤ Z.of_nat (size Sample.scores))%Z →
       ∃ id d, descriptor_of self id = Some d ∧ (low d ≤ k ≤ high d)%Z).
Proof.
  pose proof (rank_partition Sample.scores None) as H.
  split; apply H; done.
Defined.

(** C10. For a non-empty totals map the engine is OK, and for every id that
    is not a key of the map [positions] has no entry and [get_result] raises
    [KeyError]; so a call that returns was made for a participant of the map. *)
Theorem get_result_absent_raises (scores : gmap string (gmap string Qc))
    (scoreboard_json : option (gmap string string)) :
  scores ≠ ∅ →
  let self := init (Some scores) scoreboard_json in
  ok self = true
  ∧ (∀ id, scores !! id = None →
       positions self !! id = None ∧ get_result self id = inl Py.KeyError)
  ∧ (∀ id r, get_result self id = inr r → is_Some (scores !! id)).
Proof.
  intros Hne self. split_and!.
  - by apply ok_init.
  - intros id Hid. split; [by apply positions_absent|].
    apply get_result_absent; [by apply ok_init | by apply positions_absent].
  - intros id r Hr. destruct (scores !! id) eqn:Hid; [done|].
    unfold self in Hr. rewrite get_result_absent in Hr;
      [done | by apply ok_init | by apply positions_absent].
Qed.

(** C10 for an id that the totals map does not hold. *)
Lemma get_result_absent_raises_witness :
  get_result Sample.board "dan" = inl Py.KeyError.
Proof.
  apply (get_result_absent_raises Sample.scores (Some Sample.snapshot)); [done | reflexivity].
Defined.

(** The scenario of the specification: 50, 50 and 30 rank "1-2", "1-2" and
    "3"; once the first total is 80 the ranks are "1", "2" and "3", and against
    the earlier snapshot the second participant moved down, the others did
    not move. *)
Example two_cycles :
  let first := init (Some Sample.scores) None in
  let second := init (Some Sample.raised_scores) (Some (positions first)) in
  (positions first !! "ann", positions first !! "bob", positions first !! "cat")
    = (Some "1-2", Some "1-2", Some "3")
  ∧ get_result second "ann" = inr ("", "1")
  ∧ get_result second "bob" = inr ("↓", "2")
  ∧ get_result second "cat" = inr ("", "3").
Proof. vm_compute. done. Qed.

End partition.

(** ** The leaderboard *)

Section mapM.
Context {A B : Type} (f : A → Py.exn + B).

Lemma mapM_cons (x : A) (l : list A) :
  mapM f (x :: l) = y ← f x; k ← mapM f l; mret (y :: k).
Proof. reflexivity. Qed.

Lemma mapM_inr (l : list A) (k : list B) :
  mapM f l = inr k ↔ Forall2 (λ x y, f x = inr y) l k.
Proof.
  revert k. induction l as [|x l IH]; intros k.
  - cbn. split; [intros [= <-]; constructor | by inversion 1].
  - rewrite mapM_cons. split.
    + destruct (f x) as [e|y] eqn:Hx; [done|].
      destruct (mapM f l) as [e|k'] eqn:Hl; [done|].
      intros [= <-]. constructor; [done|]. by apply IH.
    + inversion 1 as [|? y ? k' Hx Hl]; subst. rewrite Hx.
      apply IH in Hl. by rewrite Hl.
Qed.

End mapM.

Section leaderboard_lines.
Import Scoreboard.
Context (participants : list Participant.t) (problems : list Problem.t)
        (state : State.t) (score_upgrades : gset string).
Implicit Types (scoreboard : Scoreboard.t) (x : string * string).

Lemma line_result scoreboard participant x :
  Main.line problems state score_upgrades scoreboard participant = inr x →
  ∃ diff, get_result scoreboard (Participant.login participant) = inr (diff, x.2).
Proof.
  unfold Main.line. cbn zeta.
  unfold mbind at 1, Py.exn_bind at 1. destruct (mapM _ _) as [e|points]; [done|].
  unfold mbind at 1, Py.exn_bind at 1.
  destruct (get_result _ _) as [e|[diff result]]; [done|].
  unfold mbind at 1, Py.exn_bind at 1. destruct (mapM _ _) as [e|values]; [done|].
  unfold mbind at 1, Py.exn_bind at 1. destruct (mapM _ _) as [e|shown]; [done|].
  intros [= <-]. by exists diff.
Qed.

Lemma get_result_inr scoreboard id diff result :
  get_result scoreboard id = inr (diff, result) →
  if ok scoreboard then positions scoreboard !! id = Some result else result = "?".
Proof.
  unfold get_result. destruct (ok scoreboard); cbn [negb]; [|by intros [= _ <-]].
  destruct (positions scoreboard !! id) as [new_pos|]; [|done].
  repeat case_match; intros [= _ <-]; done.
Qed.

End leaderboard_lines.

Section leaderboard_sort.
Import Scoreboard.
Context (participants : list Participant.t) (problems : list Problem.t)
        (state : State.t) (score_upgrades : gset string).
Implicit Types (x : string * string).

Lemma sort_key_rendered x d :
  x.2 = render d → (0 ≤ low d)%Z →
  Main.sort_key x = inr (low d) ∧ parse x.2 = Some d.
Proof.
  intros Hx Hd. unfold Main.sort_key. rewrite Hx, low_bound_render, parse_render by done. done.
Qed.

Lemma mapM_sort_key (builder : list (string * string)) :
  Forall (λ x, rendered x.2) builder →
  ∃ keys, mapM Main.sort_key builder = inr keys
    ∧ Forall2 (λ x k, ∃ d, parse x.2 = Some d ∧ low d = k) builder keys.
Proof.
  induction 1 as [|x builder (d & Hx & Hd) _ (keys & Hkeys & Hall)].
  - exists []. split; [done | constructor].
  - destruct (sort_key_rendered x d Hx Hd) as [Hk Hp].
    exists (low d :: keys). split.
    + rewrite mapM_cons, Hk, Hkeys. done.
    + constructor; eauto.
Qed.

Lemma by_key_sorted (l : list (Z * (string * string))) :
  Forall (λ kx, ∃ d, parse kx.2.2 = Some d ∧ low d = kx.1) l →
  StronglySorted Main.by_key l → StronglySorted Main.by_low_bound l.*2.
Proof.
  intros Hall. induction 1 as [|kx l Hl IH Hkx]; [constructor|].
  apply Forall_cons in Hall as [(d & Hd & Hk) Hall].
  rewrite fmap_cons. constructor; [by apply IH|].
  apply Forall_fmap, Forall_forall. intros ky Hy.
  rewrite Forall_forall in Hall, Hkx.
  destruct (Hall ky Hy) as (d' & Hd' & Hk'). exists d, d'. split_and!; [done..|].
  specialize (Hkx ky Hy). unfold Main.by_key in Hkx. lia.
Qed.

(** C8. Whenever the line of every configured participant is built, the
    pipeline returns lines: the built lines as they are, in the configured
    order, when some descriptor is "?"; otherwise a permutation of them that is
    sorted ascending by the low bound of the descriptor. *)
Theorem leaderboard_order
    (scores : option (gmap string (gmap string Qc)))
    (scoreboard_json : option (gmap string string))
    (pinned_text_builder : list (string * string)) :
  let scoreboard := init scores scoreboard_json in
  mapM (Main.line problems state score_upgrades scoreboard) participants
    = inr pinned_text_builder →
  ∃ lines,
    Main.leaderboard participants problems state score_upgrades scoreboard = inr lines
    ∧ (Exists (λ x, x.2 = "?") pinned_text_builder → lines = pinned_text_builder)
    ∧ (¬ Exists (λ x, x.2 = "?") pinned_text_builder →
         lines ≡ₚ pinned_text_builder ∧ StronglySorted Main.by_low_bound lines).
Proof.
  intros scoreboard Hbuilder. unfold Main.leaderboard. rewrite Hbuilder. cbn [mbind Py.exn_bind].
  case_bool_decide as Hunknown.
  - exists pinned_text_builder. split_and!; [done..|]. by intros [].
  - assert (Forall (λ x, rendered x.2) pinned_text_builder) as Hrendered.
    { apply mapM_inr in Hbuilder. apply Forall_forall. intros x Hx.
      apply list_elem_of_lookup in Hx as [i Hx].
      destruct (Forall2_lookup_r _ _ _ _ _ Hbuilder Hx) as (p & _ & Hline).
      apply line_result in Hline as [diff Hres]. apply get_result_inr in Hres.
      destruct (ok scoreboard) eqn:Hok.
      - unfold scoreboard, init in *. destruct scores as [sc|]; [|done].
        destruct (decide (sc = ∅)) as [|Hne]; [done|]. cbn [positions] in Hres.
        destruct (sc !! Participant.login p) as [st|] eqn:Hst.
        + pose proof (positions_present sc scoreboard_json _ st Hne Hst) as Hpos.
          rewrite positions_init in Hpos by done. rewrite Hpos in Hres.
          injection Hres as <-. eexists. split; [done|]. rewrite low_expected. lia.
        + pose proof (positions_absent sc scoreboard_json _ Hne Hst) as Hpos.
          rewrite positions_init in Hpos by done. congruence.
      - destruct Hunknown. apply Exists_exists. exists x. split; [|done].
        apply list_elem_of_lookup. eauto. }
    destruct (mapM_sort_key _ Hrendered) as (keys & -> & Hkeys).
    eexists. split; [done|]. split; [done|]. intros _.
    assert (length keys = length pinned_text_builder) as Hlen
      by (symmetry; by eapply Forall2_length).
    split.
    + rewrite sorted_Permutation. by rewrite snd_zip by lia.
    + apply by_key_sorted.
      * rewrite sorted_Permutation. apply Forall_forall. intros [k x] Hin.
        apply elem_of_lookup_zip_with_1 in Hin as (i & k' & x' & [= -> ->] & Hk & Hx).
        destruct (Forall2_lookup_l _ _ _ _ _ Hkeys Hx) as (k'' & Hk'' & Hd).
        cbn [fst snd]. by simplify_eq.
      * apply sorted_StronglySorted.
        -- intros a b. unfold Main.by_key. lia.
        -- intros a b c. unfold Main.by_key. lia.
Qed.

End leaderboard_sort.

(** C8 on three participants configured in the order cat, ann, bob. *)
Lemma leaderboard_order_witness :
  ∃ lines,
    Main.leaderboard Sample.participants Sample.problems Sample.board_ledger {[ "ann" ]}
      Sample.board = inr lines
    ∧ lines ≡ₚ [("[↓3] Cat (0.00): 0, 0.00", "3");
                ("[1-2] Ann (↑50.00): 50, 0.00", "1-2");
                ("[↑1-2] Bob (0.00): 0, 0.00", "1-2")]
    ∧ StronglySorted Main.by_low_bound lines.
Proof.
  destruct (leaderboard_order Sample.participants Sample.problems Sample.board_ledger
              {[ "ann" ]} (Some Sample.scores) (Some Sample.snapshot)
              [("[↓3] Cat (0.00): 0, 0.00", "3");
               ("[1-2] Ann (↑50.00): 50, 0.00", "1-2");
               ("[↑1-2] Bob (0.00): 0, 0.00", "1-2")])
    as (lines & Hrun & _ & Hsorted).
  - vm_compute. reflexivity.
  - exists lines. split; [exact Hrun|]. apply Hsorted.
    intros Hunknown. apply Exists_exists in Hunknown as (x & Hx & Hq).
    repeat (apply elem_of_cons in Hx as [->|Hx]; [discriminate Hq|]).
    by apply elem_of_nil in Hx.
Defined.

(** ** The formatter *)

Section digits.
Import Formatter.

Lemma digit_cases (x : Z) (P : Z → Prop) :
  (0 ≤ x < 10)%Z →
  P 0%Z → P 1%Z → P 2%Z → P 3%Z → P 4%Z → P 5%Z → P 6%Z → P 7%Z → P 8%Z → P 9%Z →
  P x.
Proof.
  intros Hx. assert (x = 0 ∨ x = 1 ∨ x = 2 ∨ x = 3 ∨ x = 4 ∨ x = 5 ∨ x = 6 ∨ x = 7
                     ∨ x = 8 ∨ x = 9)%Z as H by lia.
  intros. repeat (destruct H as [->|H]; [assumption|]). by subst.
Qed.

Lemma uint_of_char_digit (x : Z) (u : Decimal.uint) :
  (0 ≤ x < 10)%Z → uint_of_char (digit x) (Some u) = Some (Py.cons_digit x u).
Proof.
  intros Hx.
  by apply (digit_cases x (λ x, uint_of_char (digit x) (Some u) = Some (Py.cons_digit x u))).
Qed.

Lemma of_uint_cons_digit (x : Z) (u : Decimal.uint) :
  (0 ≤ x < 10)%Z →
  Z.of_uint (Py.cons_digit x u) = (x * 10 ^ Z.of_N (Unsigned.usize u) + Z.of_uint u)%Z.
Proof.
  intros Hx. unfold Z.of_uint. rewrite !Unsigned.of_uint_alt.
  assert (Decimal.rev (Py.cons_digit x u) = Decimal.revapp u (Py.cons_digit x Decimal.Nil)) as ->.
  { by apply (digit_cases x (λ x, Decimal.rev (Py.cons_digit x u)
                                 = Decimal.revapp u (Py.cons_digit x Decimal.Nil))). }
  rewrite Unsigned.of_lu_revapp.
  assert (Unsigned.of_lu (Py.cons_digit x Decimal.Nil) = Z.to_N x) as ->.
  { by apply (digit_cases x (λ x, Unsigned.of_lu (Py.cons_digit x Decimal.Nil) = Z.to_N x)). }
  rewrite N2Z.inj_add, N2Z.inj_mul, N2Z.inj_pow, Z2N.id by lia. cbn. lia.
Qed.

Lemma usize_cons_digit (x : Z) (u : Decimal.uint) :
  Unsigned.usize (Py.cons_digit x u) = N.succ (Unsigned.usize u).
Proof. unfold Py.cons_digit. by repeat case_match. Qed.

Lemma uint_of_digits (k : nat) (r : Z) :
  (0 ≤ r < 10 ^ Z.of_nat k)%Z →
  ∃ u, NilEmpty.uint_of_string (digits k r) = Some u
       ∧ Unsigned.usize u = N.of_nat k ∧ Z.of_uint u = r.
Proof.
  revert r. induction k as [|k IH]; intros r Hr.
  - exists Decimal.Nil. cbn in *. split_and!; [done..|lia].
  - cbn [digits NilEmpty.uint_of_string].
    assert (0 < 10 ^ Z.of_nat k)%Z as Hpos by (apply Z.pow_pos_nonneg; lia).
    rewrite Nat2Z.inj_succ, Z.pow_succ_r in Hr by lia.
    destruct (IH (r mod 10 ^ Z.of_nat k)%Z) as (u & -> & Hsize & Hval).
    { by apply Z.mod_pos_bound. }
    assert (0 ≤ r / 10 ^ Z.of_nat k < 10)%Z as Hd.
    { split; [apply Z.div_pos; lia | apply Z.div_lt_upper_bound; lia]. }
    rewrite uint_of_char_digit by done. eexists. split; [done|].
    rewrite usize_cons_digit, of_uint_cons_digit, Hsize, Hval by done.
    split; [lia|]. rewrite nat_N_Z.
    rewrite (Z.div_mod r (10 ^ Z.of_nat k)) at 3 by lia. lia.
Qed.

Lemma digits_value_digits (k : nat) (r : Z) :
  (0 ≤ r < 10 ^ Z.of_nat k)%Z → Py.digits_value (digits k r) = Some r.
Proof.
  intros Hr. destruct (uint_of_digits k r Hr) as (u & Hu & _ & Hval).
  unfold Py.digits_value. rewrite Hu. cbn. by rewrite Hval.
Qed.

Lemma length_digits (k : nat) (r : Z) : String.length (digits k r) = k.
Proof. revert r. induction k as [|k IH]; intros r; cbn; [done | by rewrite IH]. Qed.

Lemma digits_value_str (w : Z) : (0 ≤ w)%Z → Py.digits_value (Py.str w) = Some w.
Proof.
  intros Hw. unfold Py.digits_value, Py.str. destruct w as [|p|p]; [done| |lia].
  cbn [Z.to_int NilZero.string_of_int]. pose proof (Unsigned.to_uint_nonnil p) as Hnil.
  assert (NilZero.string_of_uint (Pos.to_uint p) = NilEmpty.string_of_uint (Pos.to_uint p)) as ->
    by (by destruct (Pos.to_uint p)).
  rewrite NilEmpty.usu. cbn. unfold Z.of_uint. by rewrite Unsigned.of_to.
Qed.

End digits.

Section formatter.
Import Formatter.

Lemma round_half_even_near (x : Z) (d : positive) :
  (- Z.pos d ≤ 2 * round_half_even x d * Z.pos d - 2 * x ≤ Z.pos d)%Z.
Proof.
  unfold round_half_even.
  pose proof (Z.div_mod x (Z.pos d)) as Hdm.
  pose proof (Z.mod_pos_bound x (Z.pos d)) as Hb.
  destruct (Z.compare_spec (2 * (x mod Z.pos d)) (Z.pos d)); [destruct (Z.even _)|..]; nia.
Qed.

Lemma round_half_even_nonneg (x : Z) (d : positive) :
  (0 ≤ x)%Z → (0 ≤ round_half_even x d)%Z.
Proof.
  intros Hx. unfold round_half_even.
  assert (0 ≤ x / Z.pos d)%Z by (apply Z.div_pos; lia).
  repeat case_match; lia.
Qed.

Lemma str_head (w : Z) :
  (0 ≤ w)%Z → ∃ c rest, Py.str w = String c rest ∧ Ascii.eqb c "-" = false.
Proof.
  intros (d & Hd & ->)%str_nonneg. destruct d; [done|..]; cbn; eauto.
Qed.

Lemma float_negative (body : string) :
  Py.float (String "-" body) = Qcopp <$> Py.magnitude_of body.
Proof. reflexivity. Qed.

Lemma float_positive (c : ascii) (rest : string) :
  Ascii.eqb c "-" = false → Py.float (String c rest) = Py.magnitude_of (String c rest).
Proof. intros Hc. unfold Py.float. by rewrite Hc. Qed.

Lemma float_format_f (precision : nat) (value : Qc) :
  Py.float (format_f precision value) = Some (written precision value)
  ∧ decimal_places (format_f precision value) = precision.
Proof.
  unfold format_f, written, decimal_places. cbn zeta.
  set (unit := (10 ^ Z.of_nat precision)%Z).
  set (m := round_half_even (Z.abs (Qnum value) * unit) (Qden value)).
  assert (0 < unit)%Z as Hunit by (apply Z.pow_pos_nonneg; lia).
  assert (0 ≤ m)%Z as Hm by (apply round_half_even_nonneg; lia).
  assert (0 ≤ m / unit)%Z as Hw by (apply Z.div_pos; lia).
  assert (0 ≤ m mod unit < unit)%Z as Hr by (by apply Z.mod_pos_bound).
  set (tail := match precision with
               | 0 => ""
               | S _ => String "." (digits precision (m mod unit))
               end).
  assert (Py.before "." tail = "" ∧
          default EmptyString (Py.after "." tail) = digits precision (m mod unit)) as [Hb Ha].
  { unfold tail. by destruct precision. }
  assert (Py.after "." tail = None → precision = 0) as Hnone.
  { unfold tail. by destruct precision. }
  destruct (str_head (m / unit) Hw) as (c & rest & Hs & Hc).
  assert (Py.magnitude_of (Py.str (m / unit) +:+ tail)
          = Some (Qc_of_Z (m / unit) + Q2Qc ((m mod unit) # Z.to_pos unit))%Qc
          ∧ match Py.after "." (Py.str (m / unit) +:+ tail) with
            | Some f => String.length f | None => 0 end = precision) as [Hfl Hdp].
  { unfold Py.magnitude_of. cbn zeta. rewrite before_str, after_str by done.
    rewrite Hb, Ha, append_empty_r.
    rewrite decide_False by (intros [H _]; congruence).
    rewrite digits_value_str, digits_value_digits by done. cbn [mbind option_bind].
    rewrite length_digits. split; [done|].
    destruct (Py.after "." tail) as [f|] eqn:Hf.
    - cbn in Ha. by rewrite Ha, length_digits.
    - by rewrite Hnone. }
  destruct (Qnum value <? 0)%Z.
  - rewrite append_cons, append_empty_l, float_negative, Hfl.
    split; [done|]. cbn [Py.after Ascii.eqb Bool.eqb]. done.
  - rewrite append_empty_l. split; [|done].
    rewrite Hs, append_cons, float_positive, <-append_cons, <-Hs by done. done.
Qed.

End formatter.

Section near.
Import Formatter.

Lemma this_Q2Qc (q : Q) : (this (Q2Qc q) == q)%Q.
Proof. apply Qred_correct. Qed.

Lemma written_magnitude (precision : nat) (value : Qc) :
  let unit := (10 ^ Z.of_nat precision)%Z in
  let m := round_half_even (Z.abs (Qnum value) * unit) (Qden value) in
  (this (Qc_of_Z (m / unit) + Q2Qc ((m mod unit) # Z.to_pos unit))%Qc == m # Z.to_pos unit)%Q.
Proof.
  intros unit m.
  assert (0 < unit)%Z as Hunit by (apply Z.pow_pos_nonneg; lia).
  unfold Qcplus. rewrite this_Q2Qc. cbn [this Qc_of_Z Q2Qc]. rewrite Qred_correct.
  unfold Qeq, Qplus, inject_Z. cbn [Qnum Qden].
  rewrite Pos2Z.inj_mul, !Z2Pos.id by lia.
  pose proof (Z.div_mod m unit). nia.
Qed.

Lemma written_near (precision : nat) (value : Qc) :
  (value - half_unit precision ≤ written precision value
   ∧ written precision value ≤ value + half_unit precision)%Qc.
Proof.
  unfold written. cbn zeta.
  set (unit := (10 ^ Z.of_nat precision)%Z).
  set (m := round_half_even (Z.abs (Qnum value) * unit) (Qden value)).
  assert (0 < unit)%Z as Hunit by (apply Z.pow_pos_nonneg; lia).
  pose proof (round_half_even_near (Z.abs (Qnum value) * unit) (Qden value)) as Hnear.
  fold m in Hnear.
  pose proof (written_magnitude precision value) as Hmag. cbn zeta in Hmag.
  fold unit in Hmag. fold m in Hmag.
  set (mag := (Qc_of_Z (m / unit) + Q2Qc ((m mod unit) # Z.to_pos unit))%Qc) in *.
  clearbody mag.
  unfold Qcle, Qcminus, Qcplus, Qcopp, half_unit.
  assert (∀ a b : Z, (a ≤ b)%Z → (a * unit ≤ b * unit)%Z) as Hscale
    by (intros; apply Z.mul_le_mono_nonneg_r; lia).
  destruct (Z.ltb_spec (Qnum value) 0) as [Hneg|Hpos]; split;
    repeat setoid_rewrite this_Q2Qc; setoid_rewrite Hmag;
    destruct value as [[n d] Hc]; cbn [this Qnum Qden] in *;
    unfold Qle, Qplus, Qopp; cbn [Qnum Qden];
    rewrite !Pos2Z.inj_mul, !Z2Pos.id by lia; fold unit.
  - specialize (Hscale (2 * n * unit + 2 * m * Z.pos d) (Z.pos d))%Z. lia.
  - specialize (Hscale (- Z.pos d) (2 * n * unit + 2 * m * Z.pos d))%Z. lia.
  - specialize (Hscale (2 * n * unit - Z.pos d) (2 * m * Z.pos d))%Z. lia.
  - specialize (Hscale (2 * m * Z.pos d) (2 * n * unit + Z.pos d))%Z. lia.
Qed.
End near.

(** C9. The formatted text of a value has no decimal place when the problem
    is not fractional and two when it is, and the number it writes is the
    value rounded to that many places (off by half a unit of the last place at
    most); so has every text [get_points] returns. A non-fractional 100 is
    written "100"; a fractional 66.666, as the decimal number and as the
    binary64 number nearest to it, is written "66.67". *)
Theorem formatter_decimal_places (value : Qc) (fractional_scoring : bool) :
  let places := if fractional_scoring then 2 else 0 in
  Formatter.decimal_places (formatter value fractional_scoring) = places
  ∧ (∃ number, Py.float (formatter value fractional_scoring) = Some number
       ∧ (value - Formatter.half_unit places ≤ number)%Qc
       ∧ (number ≤ value + Formatter.half_unit places)%Qc)
  ∧ (∀ self participant problem,
       Formatter.decimal_places
         (State.get_points self participant problem fractional_scoring) = places)
  ∧ formatter (Qc_of_Z 100) false = "100"
  ∧ formatter (Q2Qc (66666 # 1000)) true = "66.67"
  ∧ formatter (Q2Qc (1172800674837037 # 17592186044416)) true = "66.67".
Proof.
  intros places.
  assert (∀ v, Formatter.decimal_places (formatter v fractional_scoring) = places) as Hplaces.
  { intros v. unfold formatter, Formatter.call.
    destruct (float_format_f (Formatter.formatting_dict fractional_scoring) v) as [_ ->].
    by destruct fractional_scoring. }
  split_and!.
  - apply Hplaces.
  - unfold formatter, Formatter.call.
    destruct (float_format_f (Formatter.formatting_dict fractional_scoring) value) as [-> _].
    eexists. split; [done|].
    replace places with (Formatter.formatting_dict fractional_scoring)
      by (by destruct fractional_scoring).
    apply written_near.
  - intros self participant problem. unfold State.get_points.
    repeat case_match; apply Hplaces.
  - reflexivity.
  - reflexivity.
  - reflexivity.
Qed.

(** * Further properties of the code *)

(** ** The retrying fetcher: every run of [_get_request] *)

Section fetcher_runs.
Import DataFetcher.
Context {J : Type}.
Implicit Types (self : config) (server : nat → attempt J).

(** The delays from [delay] on: the first, then those from the next one on. *)
Lemma geometric_S self (delay : Qc) (c : nat) :
  (λ k, delay * retry_delay_exponent self ^ k)%Qc <$> seq 0 (S c)
  = delay :: ((λ k, delay * retry_delay_exponent self * retry_delay_exponent self ^ k)%Qc
                <$> seq 0 c).
Proof.
  cbn [seq fmap list_fmap]. f_equal.
  - cbn. by rewrite Qcmult_1_r.
  - rewrite <-fmap_S_seq, <-list_fmap_compose. apply list_fmap_ext.
    intros _ k _. cbn. by rewrite Qcmult_assoc.
Qed.

(** The loop from attempt [i] on when no attempt answers: one delay for each
    attempt but the last that ends in the [except] clause. *)
Lemma attempts_exhausted self server (m i : nat) (delay : Qc) (slept : list Qc) :
  (m ≠ 0 → Z.of_nat (i + m) = retries self) →
  (∀ j, i ≤ j < i + m → answers (server j) = false) →
  attempts self server (seq i m) delay slept
  = (None, slept ++ ((λ k, delay * retry_delay_exponent self ^ k)%Qc
                       <$> seq 0 (length (filter (λ j, excepts (server j)) (seq i (m - 1)))))).
Proof.
  revert i delay slept. induction m as [|m IH]; intros i delay slept Hn Hfail.
  - cbn. by rewrite app_nil_r.
  - cbn [seq attempts]. replace (S m - 1) with m by lia.
    assert (answers (server i) = false) as Hi by (apply Hfail; lia).
    assert (∀ j, S i ≤ j < S i + m → answers (server j) = false) as Hrest
      by (intros j Hj; apply Hfail; lia).
    assert (m ≠ 0 → Z.of_nat (S i + m) = retries self) as Hn' by (intros _; rewrite <-Hn; lia).
    destruct m as [|m].
    + rewrite decide_False by lia. cbn [attempts seq filter length fmap list_fmap].
      rewrite app_nil_r.
      destruct (server i) as [|status_code [value|]]; cbn [answers] in Hi; [done| |];
        case_decide; try done.
    + rewrite decide_True by lia. rewrite !IH by done.
      replace (S m - 1) with m by lia. cbn [seq]. rewrite filter_cons.
      destruct (server i) as [|status_code [value|]] eqn:Hs; cbn [excepts answers] in *.
      all: repeat case_decide; repeat case_bool_decide; try done.
      all: cbn [length]; rewrite geometric_S; by rewrite <-app_assoc.
Qed.

(** The loop from attempt [i] on when attempt [i + k] is the first to
    answer. *)
Lemma attempts_first_answer self server (m i k : nat) (value : J) (delay : Qc) (slept : list Qc) :
  Z.of_nat (i + m) = retries self →
  k < m →
  server (i + k) = Response 200 (Some value) →
  (∀ j, i ≤ j < i + k → answers (server j) = false) →
  attempts self server (seq i m) delay slept
  = (Some value,
     slept ++ ((λ k, delay * retry_delay_exponent self ^ k)%Qc
                 <$> seq 0 (length (filter (λ j, excepts (server j)) (seq i k))))).
Proof.
  revert i k delay slept. induction m as [|m IH]; intros i k delay slept Hn Hk Hans Hfail; [lia|].
  cbn [seq attempts]. destruct k as [|k].
  - rewrite Nat.add_0_r in Hans. rewrite Hans. rewrite decide_False by (intros H; by apply H).
    cbn. by rewrite app_nil_r.
  - assert (answers (server i) = false) as Hi by (apply Hfail; lia).
    rewrite decide_True by lia.
    rewrite !(IH (S i) k) by first [lia | by rewrite <-Hans; f_equal; lia
                                    | intros j Hj; apply Hfail; lia].
    cbn [seq]. rewrite filter_cons.
    destruct (server i) as [|status_code [w|]] eqn:Hs; cbn [excepts answers] in *.
    all: repeat case_decide; repeat case_bool_decide; try done.
    all: cbn [length]; rewrite geometric_S; by rewrite <-app_assoc.
Qed.

Lemma take_backoff_schedule self (c : nat) :
  c ≤ Z.to_nat (retries self) - 1 →
  take c (backoff_schedule self)
  = (λ k, first_retry_delay self * retry_delay_exponent self ^ k)%Qc <$> seq 0 c.
Proof.
  intros Hc. unfold backoff_schedule. rewrite <-fmap_take, take_seq.
  by rewrite Nat.min_l by done.
Qed.

Lemma length_filter_seq (P : nat → Prop) `{!∀ j, Decision (P j)} (i m : nat) :
  length (filter P (seq i m)) ≤ m.
Proof. etrans; [apply length_filter|]. by rewrite length_seq. Qed.

(** X1. When none of the [retries] attempts answers with status 200 and a
    decodable body, [_get_request] returns [None], and the delays slept are
    the first delays of the backoff schedule, one for each attempt but the
    last that ended in the [except] clause; an answer with another status adds
    no delay. *)
Theorem get_request_exhausted self server :
  (∀ j, (Z.of_nat j < retries self)%Z → answers (server j) = false) →
  _get_request self server
  = (None,
     take (length (filter (λ j, excepts (server j)) (seq 0 (Z.to_nat (retries self) - 1))))
          (backoff_schedule self)).
Proof.
  intros Hfail. unfold _get_request. rewrite attempts_exhausted.
  - rewrite take_backoff_schedule by apply length_filter_seq. done.
  - lia.
  - intros j Hj. apply Hfail. lia.
Qed.

(** X2. When attempt [k] is the first that answers with status 200 and a
    decodable body, [_get_request] returns that body without asking again,
    having slept the first delays of the backoff schedule, one for each
    earlier attempt that ended in the [except] clause. *)
Theorem get_request_first_answer self server (k : nat) (value : J) :
  (Z.of_nat k < retries self)%Z →
  server k = Response 200 (Some value) →
  (∀ j, j < k → answers (server j) = false) →
  _get_request self server
  = (Some value,
     take (length (filter (λ j, excepts (server j)) (seq 0 k))) (backoff_schedule self)).
Proof.
  intros Hk Hans Hfail. unfold _get_request.
  rewrite (attempts_first_answer _ _ _ 0 k value) by first [lia | done | intros j Hj; apply Hfail; lia].
  rewrite take_backoff_schedule; [done|].
  etrans; [apply length_filter_seq|]. lia.
Qed.

End fetcher_runs.

(** X1 at a concrete input. *)
Lemma get_request_exhausted_witness :
  DataFetcher._get_request Sample.fetcher Sample.flaky
  = (None,
     take (length (filter (λ j, DataFetcher.excepts (Sample.flaky j))
                          (seq 0 (Z.to_nat (DataFetcher.retries Sample.fetcher) - 1))))
          (DataFetcher.backoff_schedule Sample.fetcher)).
Proof.
  apply (get_request_exhausted Sample.fetcher Sample.flaky).
  intros j _. by destruct j as [|[|j]].
Defined.

(** X2 at a concrete input. *)
Lemma get_request_first_answer_witness :
  DataFetcher._get_request Sample.fetcher Sample.recovering
  = (Some tt,
     take (length (filter (λ j, DataFetcher.excepts (Sample.recovering j)) (seq 0 2)))
          (DataFetcher.backoff_schedule Sample.fetcher)).
Proof.
  apply (get_request_first_answer Sample.fetcher Sample.recovering 2 tt).
  - reflexivity.
  - reflexivity.
  - intros j Hj. destruct j as [|[|j]]; [reflexivity | reflexivity | lia].
Defined.

(** ** The ledger: totals *)

Section ledger_totals.
Import State.
Implicit Types (self : State.t) (sub : Submission) (v points : list Qc).

Lemma merge_nil v : merge v [] = v.
Proof. by destruct v. Qed.

(** The sum does not decrease when components are raised. *)
Lemma foldl_plus_merge_le v points (a b : Qc) :
  (a ≤ b)%Qc → (foldl Qcplus a v ≤ foldl Qcplus b (merge v points))%Qc.
Proof.
  revert points a b. induction v as [|old v IH]; intros points a b Hab; [done|].
  destruct points as [|p points]; cbn [merge foldl].
  - rewrite <-(merge_nil v) at 2. apply IH. by apply Qcplus_le_compat.
  - apply IH. apply Qcplus_le_compat; [done | apply max_ge_l].
Qed.

Lemma sum_merge_le v points : (Py.sum v ≤ Py.sum (merge v points))%Qc.
Proof. apply foldl_plus_merge_le. apply Qcle_refl. Qed.

(** [get_points] formats the sum of the stored vector, or zero. *)
Lemma get_points_vector self u p f :
  get_points self u p f = formatter (from_option Py.sum 0%Qc (vector self u p)) f.
Proof.
  unfold get_points, vector. destruct (state self !! u) as [problems|]; [|done].
  cbn. by destruct (problems !! p).
Qed.

(** Components that do not exceed the stored ones change nothing. *)
Lemma merge_dominated v points :
  (∀ i p x, points !! i = Some p → v !! i = Some x → (p ≤ x)%Qc) → merge v points = v.
Proof.
  revert points. induction v as [|old v IH]; intros points Hle; [by destruct points|].
  destruct points as [|p points]; [done|]. cbn [merge]. f_equal.
  - unfold Py.max. case_decide as Hlt; [|done].
    specialize (Hle 0 p old eq_refl eq_refl). by apply Qclt_not_le in Hlt.
  - apply IH. intros i q x Hq Hx. by apply (Hle (S i)).
Qed.

(** The first submission of a pair is raised to zero at least. *)
Lemma merge_replicate points :
  merge (replicate (length points) 0%Qc) points = Py.max 0%Qc <$> points.
Proof. induction points as [|p points IH]; [done|]. cbn. by rewrite IH. Qed.

(** X3. Applying any submission never lowers the sum of the components
    stored for a pair, the number [get_points] formats, whether the call
    returns or raises. *)
Theorem total_never_decreases self sub u p v :
  vector self u p = Some v →
  ∃ v', vector (Py.final (add_submission self sub)) u p = Some v'
        ∧ (Py.sum v ≤ Py.sum v')%Qc.
Proof.
  intros Hv. destruct (decide ((u, p) = (user sub, task sub))) as [Heq|Hne].
  - injection Heq as -> ->. rewrite vector_add_submission.
    eexists. split; [done|]. rewrite (start_initialised _ _ _ Hv). apply sum_merge_le.
  - rewrite vector_add_submission_other by done. exists v. split; [done|]. apply Qcle_refl.
Qed.

(** X4. A submission for a pair that holds a vector at least as long, none
    of whose components exceeds the stored one, leaves [self.state] as it is:
    the call returns and only records the key. *)
Theorem dominated_submission_changes_no_score self sub v :
  vector self (user sub) (task sub) = Some v →
  length (extra sub) ≤ length v →
  (∀ i p x, extra sub !! i = Some p → v !! i = Some x → (p ≤ x)%Qc) →
  add_submission self sub
  = Py.Returned tt {| state := state self; submissions := submissions self ++ [key sub] |}.
Proof.
  intros Hv Hlen Hle. rewrite add_submission_unfold. cbn zeta.
  rewrite (start_initialised _ _ _ Hv). rewrite decide_True by done.
  rewrite merge_dominated by done.
  unfold vector in Hv. destruct (state self !! user sub) as [problems|] eqn:Hu; [|done].
  cbn in Hv. cbn [default from_option]. unfold id.
  by rewrite (insert_id problems), (insert_id (state self)).
Qed.

(** X5. Applying a submission does not change what [get_points] returns for
    any other (participant, problem) pair, whether the call returns or
    raises. *)
Theorem other_pairs_keep_points self sub u p f :
  (u, p) ≠ (user sub, task sub) →
  get_points (Py.final (add_submission self sub)) u p f = get_points self u p f.
Proof. intros Hne. by rewrite !get_points_vector, vector_add_submission_other. Qed.

(** X6. For a pair the ledger does not hold, [get_points] is "0", or "0.00"
    with fractional scoring, and the first submission is applied whatever the
    length of its vector: the call returns, stores each component raised to at
    least zero, and records the key. *)
Theorem first_submission_returns self sub :
  vector self (user sub) (task sub) = None →
  get_points self (user sub) (task sub) false = "0"
  ∧ get_points self (user sub) (task sub) true = "0.00"
  ∧ ∃ self', add_submission self sub = Py.Returned tt self'
             ∧ vector self' (user sub) (task sub) = Some (Py.max 0%Qc <$> extra sub)
             ∧ has_submission self' sub = true.
Proof.
  intros Hv. rewrite !get_points_vector, Hv. split; [done|]. split; [done|].
  pose proof (vector_add_submission self sub) as Hvec.
  rewrite add_submission_unfold in *. cbn zeta in *.
  rewrite (start_fresh _ _ Hv) in *. rewrite length_replicate in *.
  rewrite decide_True in * by done. eexists. split; [done|].
  cbn [Py.final] in Hvec. rewrite Hvec, merge_replicate. split; [done|].
  unfold has_submission. cbn. apply bool_decide_eq_true_2, elem_of_app. right. by left.
Qed.

End ledger_totals.

(** X3 at a concrete input. *)
Lemma total_never_decreases_witness :
  ∃ v', State.vector (Py.final (State.add_submission Sample.ledger Sample.second_try))
          "ann" "sum" = Some v'
        ∧ (Py.sum [Sample.num 1; Sample.num 2] ≤ Py.sum v')%Qc.
Proof.
  apply (total_never_decreases Sample.ledger Sample.second_try "ann" "sum"
           [Sample.num 1; Sample.num 2]).
  reflexivity.
Defined.

(** X4 at a concrete input. *)
Lemma dominated_submission_changes_no_score_witness :
  State.add_submission Sample.ledger Sample.lower
  = Py.Returned tt {| State.state := State.state Sample.ledger;
                      State.submissions := State.submissions Sample.ledger
                                             ++ [State.key Sample.lower] |}.
Proof.
  apply (dominated_submission_changes_no_score Sample.ledger Sample.lower
           [Sample.num 1; Sample.num 2]).
  - reflexivity.
  - cbn. lia.
  - intros i p x. destruct i as [|[|i]]; cbn; intros [= <-] [= <-]; by vm_compute.
Defined.

(** X5 at a concrete input. *)
Lemma other_pairs_keep_points_witness :
  State.get_points (Py.final (State.add_submission Sample.ledger Sample.first_try))
    "bob" "sum" true
  = State.get_points Sample.ledger "bob" "sum" true.
Proof.
  apply (other_pairs_keep_points Sample.ledger Sample.first_try "bob" "sum" true).
  discriminate.
Defined.

(** X6 at a concrete input. *)
Lemma first_submission_returns_witness :
  State.get_points State.empty "ann" "sum" false = "0"
  ∧ State.get_points State.empty "ann" "sum" true = "0.00"
  ∧ ∃ self',
      State.add_submission State.empty Sample.first_try = Py.Returned tt self'
      ∧ State.vector self' "ann" "sum" = Some (Py.max 0%Qc <$> State.extra Sample.first_try)
      ∧ State.has_submission self' Sample.first_try = true.
Proof. apply (first_submission_returns State.empty Sample.first_try). reflexivity. Defined.

(** ** The rank engine from one run to the next *)

Section cycles.
Import Scoreboard.
Implicit Types (scores : gmap string (gmap string Qc)) (id : string).

(** The counts of the rank engine do not depend on the order of the items. *)
Lemma above_Permutation (items items' : list (string * gmap string Qc)) t :
  items ≡ₚ items' → above items t = above items' t.
Proof. intros H. unfold above. by rewrite H. Qed.

Lemma level_Permutation (items items' : list (string * gmap string Qc)) t :
  items ≡ₚ items' → level items t = level items' t.
Proof. intros H. unfold level. by rewrite H. Qed.

(** X7. The positions do not depend on the order in which the loop visits
    the items of [scores]. *)
Theorem rank_items_order_independent (items items' : list (string * gmap string Qc)) :
  NoDup items.*1 → items ≡ₚ items' → rank_items items = rank_items items'.
Proof.
  intros Hnodup Hperm. assert (NoDup items'.*1) as Hnodup' by (by rewrite <-Hperm).
  apply map_eq. intros id. destruct (decide (id ∈ items.*1)) as [Hin|Hout].
  - apply list_elem_of_fmap in Hin as ([id' st] & -> & Hin). cbn [fst].
    rewrite (rank_items_lookup items Hnodup id' st Hin).
    rewrite Hperm in Hin. rewrite (rank_items_lookup items' Hnodup' id' st Hin).
    by rewrite (above_Permutation _ _ _ Hperm), (level_Permutation _ _ _ Hperm).
  - rewrite rank_items_absent by done. rewrite rank_items_absent; [done|]. by rewrite <-Hperm.
Qed.

(** X8. Two runs in a row with non-empty totals, the second reading the
    snapshot the first flushed: for a participant of the second totals map
    [get_result] returns, with the up symbol exactly when fewer participants
    are strictly above them than in the first run, the down symbol when more
    are, and the empty symbol otherwise or when they were not in the first
    map. *)
Theorem movement_between_cycles scores1 scores2 scoreboard_json id st2 :
  scores1 ≠ ∅ → scores2 ≠ ∅ → scores2 !! id = Some st2 →
  let first := init (Some scores1) scoreboard_json in
  let second := init (Some scores2) (Some (flush first)) in
  get_result second id
  = inr (match scores1 !! id with
         | None => ""
         | Some st1 =>
             if decide (better scores2 (total_score st2) < better scores1 (total_score st1))
             then "↑"
             else if decide (better scores1 (total_score st1) < better scores2 (total_score st2))
             then "↓" else ""
         end,
         render (expected (better scores2 (total_score st2)) (tied scores2 (total_score st2)))).
Proof.
  intros Hne1 Hne2 Hst2 first second.
  pose proof (positions_present scores2 (Some (flush first)) id st2 Hne2 Hst2) as Hnew.
  pose proof (ok_init scores2 (Some (flush first)) Hne2) as Hok.
  assert (old_positions second = positions first) as Hold.
  { unfold second, init. by rewrite decide_False by done. }
  destruct (scores1 !! id) as [st1|] eqn:Hst1.
  - pose proof (positions_present scores1 scoreboard_json id st1 Hne1 Hst1) as Hprev.
    rewrite (get_result_rendered second id
               (expected (better scores1 (total_score st1)) (tied scores1 (total_score st1)))
               (expected (better scores2 (total_score st2)) (tied scores2 (total_score st2)))
               Hok); [| by rewrite Hold | exact Hnew | ..].
    + rewrite !low_expected. f_equal. f_equal. repeat case_decide; try done; lia.
    + rewrite low_expected. lia.
    + rewrite low_expected. lia.
  - pose proof (positions_absent scores1 scoreboard_json id Hne1 Hst1) as Hprev.
    change (init (Some scores2) (Some (flush first))) with second in Hok, Hnew.
    change (init (Some scores1) scoreboard_json) with first in Hprev.
    unfold get_result. rewrite Hok, Hold, Hprev, Hnew. cbn [negb default from_option].
    by rewrite decide_True by done.
Qed.

(** X9. A run without totals flushes an empty snapshot, so in the next run
    with totals every participant of the map gets the empty movement
    symbol. *)
Theorem failed_cycle_forgets_ranks (scores1 : option (gmap string (gmap string Qc)))
    scores2 scoreboard_json id st :
  scores1 = None ∨ scores1 = Some ∅ →
  scores2 ≠ ∅ → scores2 !! id = Some st →
  flush (init scores1 scoreboard_json) = ∅
  ∧ get_result (init (Some scores2) (Some (flush (init scores1 scoreboard_json)))) id
    = inr ("", render (expected (better scores2 (total_score st)) (tied scores2 (total_score st)))).
Proof.
  intros Hfailed Hne Hst.
  assert (flush (init scores1 scoreboard_json) = ∅) as ->.
  { by destruct Hfailed as [-> | ->]. }
  split; [done|].
  pose proof (positions_present scores2 (Some ∅) id st Hne Hst) as Hnew.
  pose proof (ok_init scores2 (Some ∅) Hne) as Hok.
  assert (old_positions (init (Some scores2) (Some ∅)) = ∅) as Hold.
  { unfold init. by rewrite decide_False by done. }
  unfold get_result. rewrite Hok, Hold, Hnew, lookup_empty. cbn [negb default from_option].
  by rewrite decide_True by done.
Qed.

End cycles.

(** X7 at a concrete input. *)
Lemma rank_items_order_independent_witness :
  Scoreboard.rank_items [("ann", {[ "sum" := Sample.num 50 ]}); ("cat", {[ "sum" := Sample.num 30 ]})]
  = Scoreboard.rank_items [("cat", {[ "sum" := Sample.num 30 ]}); ("ann", {[ "sum" := Sample.num 50 ]})].
Proof.
  apply (rank_items_order_independent
           [("ann", {[ "sum" := Sample.num 50 ]}); ("cat", {[ "sum" := Sample.num 30 ]})]
           [("cat", {[ "sum" := Sample.num 30 ]}); ("ann", {[ "sum" := Sample.num 50 ]})]).
  - cbn. apply (bool_decide_unpack _). reflexivity.
  - apply perm_swap.
Defined.

(** X8 at a concrete input. *)
Lemma movement_between_cycles_witness :
  let first := Scoreboard.init (Some Sample.scores) None in
  let second := Scoreboard.init (Some Sample.raised_scores) (Some (Scoreboard.flush first)) in
  let t2 := Scoreboard.total_score {[ "sum" := Sample.num 20; "max" := Sample.num 30 ]} in
  Scoreboard.get_result second "bob"
  = inr (match Sample.scores !! "bob" with
         | None => ""
         | Some st1 =>
             if decide (Scoreboard.better Sample.raised_scores t2
                        < Scoreboard.better Sample.scores (Scoreboard.total_score st1))
             then "↑"
             else if decide (Scoreboard.better Sample.scores (Scoreboard.total_score st1)
                             < Scoreboard.better Sample.raised_scores t2)
             then "↓" else ""
         end,
         Scoreboard.render (Scoreboard.expected (Scoreboard.better Sample.raised_scores t2)
                                                (Scoreboard.tied Sample.raised_scores t2))).
Proof.
  apply (movement_between_cycles Sample.scores Sample.raised_scores None "bob"
           {[ "sum" := Sample.num 20; "max" := Sample.num 30 ]}); [done | done | reflexivity].
Defined.

(** X9 at a concrete input. *)
Lemma failed_cycle_forgets_ranks_witness :
  Scoreboard.flush (Scoreboard.init None (Some Sample.snapshot)) = ∅
  ∧ Scoreboard.get_result
      (Scoreboard.init (Some Sample.scores)
         (Some (Scoreboard.flush (Scoreboard.init None (Some Sample.snapshot))))) "cat"
    = inr ("", Scoreboard.render
                 (Scoreboard.expected
                    (Scoreboard.better Sample.scores
                       (Scoreboard.total_score {[ "sum" := Sample.num 30 ]}))
                    (Scoreboard.tied Sample.scores
                       (Scoreboard.total_score {[ "sum" := Sample.num 30 ]})))).
Proof.
  apply (failed_cycle_forgets_ranks None Sample.scores (Some Sample.snapshot) "cat"
           {[ "sum" := Sample.num 30 ]}); [by left | done | reflexivity].
Defined.

(** ** The leaderboard: what can fail, and the order of ties *)

Section mapM_more.
Context {A B : Type} (f : A → Py.exn + B).

(** A list comprehension returns when every element does, and otherwise
    raises what the first failing element raises. *)
Lemma mapM_returns (l : list A) :
  Forall (λ x, ∃ y, f x = inr y) l → ∃ k, mapM f l = inr k.
Proof.
  induction 1 as [|x l [y Hy] _ [k Hk]]; [by exists []|].
  exists (y :: k). by rewrite mapM_cons, Hy, Hk.
Qed.

Lemma mapM_inl (l : list A) e :
  mapM f l = inl e → ∃ x, x ∈ l ∧ f x = inl e.
Proof.
  induction l as [|x l IH]; [done|]. rewrite mapM_cons.
  destruct (f x) as [e'|y] eqn:Hx.
  - intros [= ->]. exists x. split; [by left | done].
  - destruct (mapM f l) as [e'|k]; [|done]. intros [= ->].
    destruct (IH eq_refl) as (x' & Hin & Hx'). exists x'. split; [by right | done].
Qed.

End mapM_more.

Section config_dicts.
Context {A V : Type} (key : A → string) (value : A → V).

(** A dictionary built by a loop over the configuration has every
    configured key. *)
Lemma lookup_foldl_insert_is_Some (l : list A) (d : gmap string V) (k : string) :
  k ∈ key <$> l → is_Some (foldl (λ d x, <[key x := value x]> d) d l !! k).
Proof.
  revert d. induction l as [|x l IH] using rev_ind; intros d.
  - by intros ?%elem_of_nil.
  - rewrite fmap_app, foldl_app. cbn [foldl fmap list_fmap].
    destruct (decide (k = key x)) as [->|Hne].
    + intros _. rewrite lookup_insert_eq. by eexists.
    + rewrite lookup_insert_ne by done. intros [Hin|Hin%list_elem_of_singleton]%elem_of_app.
      * by apply IH.
      * done.
Qed.

End config_dicts.

Section leaderboard_failures.
Import Scoreboard.
Context (participants : list Participant.t) (problems : list Problem.t)
        (state : State.t) (score_upgrades : gset string).
Implicit Types (scoreboard : Scoreboard.t) (x : string * string).

(** What [get_points] returns is read back by [float]. *)
Lemma get_points_float self u p f : ∃ value, Py.float (State.get_points self u p f) = Some value.
Proof.
  unfold State.get_points, formatter, Formatter.call.
  repeat case_match; eexists; apply float_format_f.
Qed.

(** The line of a participant is [get_result] followed by formatting that
    keeps the descriptor and cannot raise. *)
Lemma line_after_get_result scoreboard participant :
  ∃ k : string * string → string * string,
    (∀ r, (k r).2 = r.2)
    ∧ Main.line problems state score_upgrades scoreboard participant
      = k <$> get_result scoreboard (Participant.login participant).
Proof.
  unfold Main.line. cbn zeta.
  destruct (mapM_returns
    (λ problem,
       fractional ← Py.or_raise Py.KeyError (Main.use_fractional_scoring problems !! problem);
       mret (State.get_points state (Participant.login participant) problem fractional, problem))
    (Main.problems_ordered problems)) as [points Hpoints].
  { apply Forall_forall. intros problem Hin.
    destruct (lookup_foldl_insert_is_Some Problem.id Problem.fractional_scoring
                problems ∅ problem Hin) as [fractional Hf].
    unfold Main.use_fractional_scoring. rewrite Hf. by eexists. }
  rewrite Hpoints. cbn [mbind Py.exn_bind].
  apply mapM_inr in Hpoints.
  destruct (mapM_returns (λ x : string * string, Py.or_raise Py.ValueError (Py.float x.1)) points)
    as [values Hvalues].
  { apply Forall_forall. intros x Hin. apply list_elem_of_lookup in Hin as [i Hi].
    destruct (Forall2_lookup_r _ _ _ _ _ Hpoints Hi) as (problem & _ & Hx).
    destruct (Main.use_fractional_scoring problems !! problem) as [fractional|]; [|done].
    injection Hx as <-. cbn [fst].
    destruct (get_points_float state (Participant.login participant) problem fractional)
      as [value ->]. by eexists. }
  destruct (mapM_returns
    (λ x : string * string,
       muted ← Py.or_raise Py.KeyError (Main.problem_muted problems !! x.2);
       mret (x.1, muted)) points) as [shown Hshown].
  { apply Forall_forall. intros x Hin. apply list_elem_of_lookup in Hin as [i Hi].
    destruct (Forall2_lookup_r _ _ _ _ _ Hpoints Hi) as (problem & Hproblem & Hx).
    destruct (Main.use_fractional_scoring problems !! problem) as [fractional|]; [|done].
    injection Hx as <-. cbn [snd].
    destruct (lookup_foldl_insert_is_Some Problem.id Problem.mute problems ∅ problem)
      as [muted Hm]; [by eapply list_elem_of_lookup_2|].
    unfold Main.problem_muted. rewrite Hm. by eexists. }
  rewrite Hvalues, Hshown.
  exists (λ r,
    ("[" +:+ r.1 +:+ r.2 +:+ "] " +:+ Participant.name participant +:+ " ("
       +:+ (if decide (Participant.login participant ∈ score_upgrades) then "↑" else "")
       +:+ formatter (Py.sum values)
             (bool_decide (Exists (λ kv, kv.2 = true)
                             (map_to_list (Main.use_fractional_scoring problems))))
       +:+ "): " +:+ String.concat ", " (filter (λ y : string * bool, y.2 = false) shown).*1,
     r.2)).
  split; [done|].
  by destruct (get_result scoreboard (Participant.login participant)) as [e|[diff result]].
Qed.

(** X10. Building the line of a participant raises exactly when
    [get_result] raises for the login, and with the same exception: the
    lookups in the dictionaries built from the configured problems and the
    reading back of the formatted points never fail. The descriptor of the
    line is the one [get_result] returns. *)
Theorem line_raises_only_from_get_result scoreboard participant :
  (∀ e, Main.line problems state score_upgrades scoreboard participant = inl e
        ↔ get_result scoreboard (Participant.login participant) = inl e)
  ∧ (∀ result, (∃ text, Main.line problems state score_upgrades scoreboard participant
                        = inr (text, result))
               ↔ (∃ diff, get_result scoreboard (Participant.login participant)
                          = inr (diff, result))).
Proof.
  destruct (line_after_get_result scoreboard participant) as (k & Hk & ->).
  destruct (get_result scoreboard (Participant.login participant)) as [e|[diff result]];
    cbn [fmap Py.exn_fmap].
  - split; [intros e'; split; congruence|].
    intros result. split; intros [? ?]; done.
  - split; [done|]. intros result'. specialize (Hk (diff, result)). cbn [snd] in Hk.
    destruct (k (diff, result)) as [text result''] eqn:Hkr. cbn [snd] in Hk. subst result''.
    split.
    + intros [text' [= -> ->]]. by eexists.
    + intros [diff' [= -> ->]]. by eexists.
Qed.

Lemma mapM_line_raises scoreboard e :
  mapM (Main.line problems state score_upgrades scoreboard) participants = inl e →
  ∃ participant, participant ∈ participants
    ∧ get_result scoreboard (Participant.login participant) = inl e.
Proof.
  intros (participant & Hin & Hline)%mapM_inl. exists participant. split; [done|].
  destruct (line_after_get_result scoreboard participant) as (k & _ & Heq).
  rewrite Heq in Hline. by destruct (get_result _ _).
Qed.

End leaderboard_failures.

Section stable_sort.
Context {A : Type} (le : A → A → Prop) `{!∀ x y, Decision (le x y)}.
Context (P : A → Prop) `{!∀ x, Decision (P x)}.
(** [P] is a class of the order: its elements are below one another. *)
Context (HP : ∀ x y, P x → P y → le x y).

(** Inserting keeps the order of the elements of a class. *)
Lemma filter_insert_sorted (x : A) (l : list A) :
  filter P (Py.insert_sorted le x l) = filter P (x :: l).
Proof.
  induction l as [|y l IH]; [done|]. cbn [Py.insert_sorted].
  case_decide as Hle; [done|].
  rewrite filter_cons, IH, !filter_cons.
  destruct (decide (P x)) as [Hx|Hx]; [|done].
  destruct (decide (P y)) as [Hy|Hy]; [|done].
  destruct Hle. by apply HP.
Qed.

Lemma filter_sorted (l : list A) : filter P (Py.sorted le l) = filter P l.
Proof.
  induction l as [|x l IH]; [done|]. cbn [Py.sorted foldr].
  rewrite filter_insert_sorted, !filter_cons. fold (Py.sorted le l). by rewrite IH.
Qed.

End stable_sort.

Section filter_fmap.
Context {A B : Type} (f : A → B) (P : B → Prop) (Q : A → Prop)
        `{!∀ y, Decision (P y), !∀ x, Decision (Q x)}.

(** Filtering commutes with a projection. *)
Lemma filter_fmap (l : list A) :
  (∀ x, x ∈ l → Q x ↔ P (f x)) → filter P (f <$> l) = f <$> filter Q l.
Proof.
  induction l as [|x l IH]; intros HPQ; [done|]. rewrite fmap_cons, !filter_cons.
  rewrite IH by (intros y Hy; apply HPQ; by right).
  destruct (HPQ x); [by left|]. by repeat case_decide; try tauto.
Qed.

End filter_fmap.

Section leaderboard_whole.
Import Scoreboard.
Context (participants : list Participant.t) (problems : list Problem.t)
        (state : State.t) (score_upgrades : gset string).
Implicit Types (x : string * string).

(** Without a "?" every descriptor of the built lines is one written by
    [Scoreboard(scores)]. *)
Lemma lines_rendered (scores : option (gmap string (gmap string Qc)))
    (scoreboard_json : option (gmap string string)) (builder : list (string * string)) :
  mapM (Main.line problems state score_upgrades (init scores scoreboard_json)) participants
    = inr builder →
  ¬ Exists (λ x, x.2 = "?") builder →
  Forall (λ x, rendered x.2) builder.
Proof.
  intros Hbuilder Hunknown.
  apply mapM_inr in Hbuilder. apply Forall_forall. intros x Hx.
  apply list_elem_of_lookup in Hx as [i Hx].
  destruct (Forall2_lookup_r _ _ _ _ _ Hbuilder Hx) as (p & _ & Hline).
  apply line_result in Hline as [diff Hres]. apply get_result_inr in Hres.
  destruct (ok (init scores scoreboard_json)) eqn:Hok.
  - unfold init in *. destruct scores as [sc|]; [|done].
    destruct (decide (sc = ∅)) as [|Hne]; [done|]. cbn [positions] in Hres.
    destruct (sc !! Participant.login p) as [st|] eqn:Hst.
    + pose proof (positions_present sc scoreboard_json _ st Hne Hst) as Hpos.
      rewrite positions_init in Hpos by done. rewrite Hpos in Hres.
      injection Hres as <-. eexists. split; [done|]. rewrite low_expected. lia.
    + pose proof (positions_absent sc scoreboard_json _ Hne Hst) as Hpos.
      rewrite positions_init in Hpos by done. congruence.
  - destruct Hunknown. apply Exists_exists. exists x. split; [|done].
    apply list_elem_of_lookup. eauto.
Qed.

(** X11. The leaderboard of a scoreboard built by [Scoreboard(scores)]
    raises only an exception that [get_result] raises for some configured
    participant; the sort key of a line never fails to parse. *)
Theorem leaderboard_raises_only_from_get_result
    (scores : option (gmap string (gmap string Qc)))
    (scoreboard_json : option (gmap string string)) e :
  let scoreboard := init scores scoreboard_json in
  Main.leaderboard participants problems state score_upgrades scoreboard = inl e →
  ∃ participant, participant ∈ participants
    ∧ get_result scoreboard (Participant.login participant) = inl e.
Proof.
  intros scoreboard. unfold Main.leaderboard.
  destruct (mapM _ participants) as [e'|builder] eqn:Hbuilder; cbn [mbind Py.exn_bind].
  - intros [= ->]. by apply (mapM_line_raises participants problems state score_upgrades).
  - case_bool_decide as Hunknown; [done|].
    destruct (mapM_sort_key builder) as (keys & -> & _); [|done].
    by eapply lines_rendered.
Qed.

(** X12. With a scoreboard that is not OK the leaderboard never raises:
    there is one line per configured participant, in the configured order,
    each with the descriptor "?". *)
Theorem degraded_leaderboard (scoreboard : Scoreboard.t) :
  ok scoreboard = false →
  ∃ lines,
    Main.leaderboard participants problems state score_upgrades scoreboard = inr lines
    ∧ Forall2 (λ participant x,
                 Main.line problems state score_upgrades scoreboard participant = inr x
                 ∧ x.2 = "?") participants lines.
Proof.
  intros Hok.
  assert (∀ participant, ∃ text,
    Main.line problems state score_upgrades scoreboard participant = inr (text, "?")) as Hline.
  { intros participant.
    destruct (line_after_get_result problems state score_upgrades scoreboard participant)
      as (k & Hk & ->).
    rewrite get_result_not_ok by done. cbn [fmap Py.exn_fmap].
    specialize (Hk ("", "?")). destruct (k ("", "?")) as [text result]. cbn [snd] in Hk.
    subst. by eexists. }
  destruct (mapM_returns (Main.line problems state score_upgrades scoreboard) participants)
    as [builder Hbuilder].
  { apply Forall_forall. intros participant _. destruct (Hline participant) as [text ->].
    by eexists. }
  assert (Forall2 (λ participant x,
            Main.line problems state score_upgrades scoreboard participant = inr x
            ∧ x.2 = "?") participants builder) as Hall.
  { apply mapM_inr in Hbuilder. eapply Forall2_impl; [exact Hbuilder|].
    intros participant x Hx. cbv beta in Hx. split; [done|].
    destruct (Hline participant) as [text Ht]. rewrite Ht in Hx. by injection Hx as <-. }
  unfold Main.leaderboard. rewrite Hbuilder. cbn [mbind Py.exn_bind].
  case_bool_decide as Hunknown; [by exists builder|].
  destruct Hall as [|participant x participants' builder' [_ Hx] _].
  - by exists [].
  - destruct Hunknown. by left.
Qed.

(** X13. The lines whose descriptors have the low bound [k] are in the
    leaderboard in the order of the configured participants: the final sort
    is stable. *)
Theorem tied_lines_keep_configured_order
    (scores : option (gmap string (gmap string Qc)))
    (scoreboard_json : option (gmap string string))
    (pinned_text_builder lines : list (string * string)) (k : Z) :
  let scoreboard := init scores scoreboard_json in
  mapM (Main.line problems state score_upgrades scoreboard) participants
    = inr pinned_text_builder →
  Main.leaderboard participants problems state score_upgrades scoreboard = inr lines →
  filter (λ x, Py.int (Py.before "-" x.2) = Some k) lines
  = filter (λ x, Py.int (Py.before "-" x.2) = Some k) pinned_text_builder.
Proof.
  intros scoreboard Hbuilder. unfold Main.leaderboard. rewrite Hbuilder.
  cbn [mbind Py.exn_bind]. case_bool_decide as Hunknown; [by intros [= <-]|].
  destruct (mapM_sort_key pinned_text_builder) as (keys & Hkeys & _);
    [by eapply lines_rendered|].
  rewrite Hkeys. intros [= <-].
  apply mapM_inr in Hkeys.
  assert (length keys = length pinned_text_builder) as Hlen
    by (symmetry; by eapply Forall2_length).
  assert (∀ kx, kx ∈ zip keys pinned_text_builder →
                Py.int (Py.before "-" kx.2.2) = Some kx.1) as Hzip.
  { intros [k' x] Hin.
    apply elem_of_lookup_zip_with_1 in Hin as (i & k'' & x' & [= -> ->] & Hk & Hx).
    destruct (Forall2_lookup_l _ _ _ _ _ Hkeys Hx) as (k''' & Hk''' & Hkey).
    unfold Main.sort_key in Hkey. cbn [fst snd]. simplify_eq.
    by destruct (Py.int _) as [z|]; simplify_eq/=. }
  rewrite (filter_fmap snd _ (λ kx : Z * (string * string), kx.1 = k)
             (Py.sorted Main.by_key (zip keys pinned_text_builder))).
  - rewrite filter_sorted by (intros a b Ha Hb; unfold Main.by_key; lia).
    rewrite <-(snd_zip keys pinned_text_builder) at 2 by lia.
    symmetry. apply filter_fmap. intros kx Hin. rewrite (Hzip kx Hin). naive_solver.
  - intros kx Hin. rewrite sorted_Permutation in Hin. rewrite (Hzip kx Hin). naive_solver.
Qed.

End leaderboard_whole.

(** X11 at a concrete input. *)
Lemma leaderboard_raises_only_from_get_result_witness :
  ∃ participant,
    participant ∈ Sample.participants ++ [Participant.mk "dan" "Dan"]
    ∧ Scoreboard.get_result (Scoreboard.init (Some Sample.scores) (Some Sample.snapshot))
        (Participant.login participant) = inl Py.KeyError.
Proof.
  apply (leaderboard_raises_only_from_get_result
           (Sample.participants ++ [Participant.mk "dan" "Dan"]) Sample.problems
           Sample.board_ledger ∅ (Some Sample.scores) (Some Sample.snapshot) Py.KeyError).
  vm_compute. reflexivity.
Defined.

(** X12 at a concrete input. *)
Lemma degraded_leaderboard_witness :
  ∃ lines,
    Main.leaderboard Sample.participants Sample.problems Sample.board_ledger ∅
      (Scoreboard.init None (Some Sample.snapshot)) = inr lines
    ∧ Forall2 (λ participant x,
                 Main.line Sample.problems Sample.board_ledger ∅
                   (Scoreboard.init None (Some Sample.snapshot)) participant = inr x
                 ∧ x.2 = "?") Sample.participants lines.
Proof.
  apply (degraded_leaderboard Sample.participants Sample.problems Sample.board_ledger ∅
           (Scoreboard.init None (Some Sample.snapshot))).
  reflexivity.
Defined.

(** X13 at a concrete input. *)
Lemma tied_lines_keep_configured_order_witness :
  filter (λ x : string * string, Py.int (Py.before "-" x.2) = Some 1%Z)
    [("[1-2] Ann (↑50.00): 50, 0.00", "1-2");
     ("[↑1-2] Bob (0.00): 0, 0.00", "1-2");
     ("[↓3] Cat (0.00): 0, 0.00", "3")]
  = filter (λ x : string * string, Py.int (Py.before "-" x.2) = Some 1%Z)
      [("[↓3] Cat (0.00): 0, 0.00", "3");
       ("[1-2] Ann (↑50.00): 50, 0.00", "1-2");
       ("[↑1-2] Bob (0.00): 0, 0.00", "1-2")].
Proof.
  apply (tied_lines_keep_configured_order Sample.participants Sample.problems
           Sample.board_ledger {[ "ann" ]} (Some Sample.scores) (Some Sample.snapshot)).
  - vm_compute. reflexivity.
  - vm_compute. reflexivity.
Defined.

(** ** The pinned message *)

Section telegram.
Import Telegram.
Context (network : nat → answer).
Implicit Types (self : Telegram.t) (w : io) (chat_id message : string).

(** [send_message] changes the object only when it pins: both requests
    answered with status 200. *)
Lemma send_message_cases self w chat_id message pin :
  let result := final (send_message network self w chat_id message pin) in
  result.1 = self
  ∨ ∃ message_id text text' id',
      pin = true
      ∧ network (length (requests w)) = Response 200 text (inr message_id)
      ∧ network (S (length (requests w))) = Response 200 text' id'
      ∧ result.1 = {| token := token self;
                      config := <[chat_id := <["pinned_message_id" := message_id]>
                                               (default ∅ (config self !! chat_id))]>
                                  (config self) |}.
Proof.
  unfold send_message. cbn zeta.
  destruct (network (length (requests w))) as [|status_code text [e|message_id]] eqn:Hfirst;
    [by left| |].
  - repeat case_match; by left.
  - case_decide as Hs; [by left|]. destruct pin; [|by left]. cbn [negb].
    assert (length (requests (request (sendMessage (token self) message chat_id) w))
            = S (length (requests w))) as ->.
    { cbn. rewrite length_app. cbn. lia. }
    destruct (network (S (length (requests w)))) as [|status_code' text' id'] eqn:Hsecond;
      [by left|].
    case_decide as Hs'; [by left|]. right.
    subst status_code status_code'.
    by exists message_id, text, text', id'.
Qed.

(** The empty entry [edit_pinned_message] creates records no id. *)
Lemma pinned_message_id_init_entry self chat_id chat :
  config self !! chat_id = None →
  pinned_message_id {| token := token self; config := <[chat_id := ∅]> (config self) |} chat
  = pinned_message_id self chat.
Proof.
  intros Hnone. unfold pinned_message_id. cbn [config].
  destruct (decide (chat = chat_id)) as [->|Hne].
  - by rewrite lookup_insert_eq, Hnone.
  - by rewrite lookup_insert_ne.
Qed.

(** A recorded id survives [edit_pinned_message] for any chat. *)
Lemma pinned_message_id_edit self w chat_id message chat (m : Z) :
  pinned_message_id self chat = Some m →
  pinned_message_id (final (edit_pinned_message network self w chat_id message)).1 chat
  = Some m.
Proof.
  intros Hm. unfold edit_pinned_message. cbn zeta.
  set (self1 := match config self !! chat_id with
                | Some _ => self
                | None => {| token := token self; config := <[chat_id := ∅]> (config self) |}
                end).
  assert (pinned_message_id self1 chat = Some m) as Hm1.
  { unfold self1. destruct (config self !! chat_id) eqn:Hc; [done|].
    by rewrite pinned_message_id_init_entry. }
  destruct (pinned_message_id self1 chat_id) as [message_id|] eqn:Hid.
  - by repeat case_match.
  - destruct (send_message_cases self1 w chat_id message true)
      as [->|(message_id & _ & _ & _ & _ & _ & _ & ->)]; [done|].
    unfold pinned_message_id in *. cbn [config].
    destruct (decide (chat = chat_id)) as [->|Hne]; [congruence|].
    by rewrite lookup_insert_ne.
Qed.

(** X14. [edit_pinned_message] never changes a recorded pinned message id,
    of the chat it is called for or of any other; for a chat with a recorded
    id it leaves the object as it is and makes exactly one request, the edit
    of that message, whatever the server answers. *)
Theorem edit_keeps_pinned_id self w chat_id message chat (m : Z) :
  pinned_message_id self chat = Some m →
  let result := final (edit_pinned_message network self w chat_id message) in
  pinned_message_id result.1 chat = Some m
  ∧ (chat_id = chat →
     result.1 = self
     ∧ requests result.2 = requests w ++ [editMessageText (token self) chat m message]).
Proof.
  intros Hm. split; [by apply pinned_message_id_edit|]. intros ->.
  unfold edit_pinned_message. cbn zeta.
  assert (is_Some (config self !! chat)) as [entry Hentry].
  { unfold pinned_message_id in Hm. by destruct (config self !! chat). }
  rewrite Hentry, Hm. by repeat case_match.
Qed.

(** X15. For a chat without a recorded id, [edit_pinned_message] records
    the message id [m] exactly when the [sendMessage] request is answered with
    status 200 and id [m], and the [pinChatMessage] request that follows with
    status 200. *)
Theorem first_edit_pins self w chat_id message (m : Z) :
  pinned_message_id self chat_id = None →
  let result := final (edit_pinned_message network self w chat_id message) in
  pinned_message_id result.1 chat_id = Some m
  ↔ (∃ text, network (length (requests w)) = Response 200 text (inr m))
    ∧ (∃ text message_id, network (S (length (requests w))) = Response 200 text message_id).
Proof.
  intros Hnone. unfold edit_pinned_message. cbn zeta.
  set (self1 := match config self !! chat_id with
                | Some _ => self
                | None => {| token := token self; config := <[chat_id := ∅]> (config self) |}
                end).
  assert (pinned_message_id self1 chat_id = None) as Hnone1.
  { unfold self1. destruct (config self !! chat_id) eqn:Hc; [done|].
    by rewrite pinned_message_id_init_entry. }
  rewrite Hnone1. split.
  - destruct (send_message_cases self1 w chat_id message true)
      as [->|(message_id & text & text' & id' & _ & Hfirst & Hsecond & ->)]; [congruence|].
    unfold pinned_message_id. cbn [config]. rewrite lookup_insert_eq. cbn.
    rewrite lookup_insert_eq. intros [= ->]. eauto.
  - intros [[text Hfirst] (text' & id' & Hsecond)].
    unfold send_message. cbn zeta. rewrite Hfirst. rewrite decide_False by (by intros []).
    cbn [negb].
    assert (length (requests (request (sendMessage (token self1) message chat_id) w))
            = S (length (requests w))) as ->.
    { cbn. rewrite length_app. cbn. lia. }
    rewrite Hsecond. rewrite decide_False by (by intros []).
    unfold pinned_message_id. cbn. rewrite lookup_insert_eq. cbn. by rewrite lookup_insert_eq.
Qed.

End telegram.

(** X14 at a concrete input. *)
Lemma edit_keeps_pinned_id_witness :
  let result :=
    Telegram.final (Telegram.edit_pinned_message Sample.accepting Sample.bot Sample.quiet
                      "main" "text") in
  Telegram.pinned_message_id result.1 "main" = Some 7%Z
  ∧ ("main" = "main" →
     result.1 = Sample.bot
     ∧ Telegram.requests result.2
       = Telegram.requests Sample.quiet
           ++ [Telegram.editMessageText (Telegram.token Sample.bot) "main" 7 "text"]).
Proof.
  apply (edit_keeps_pinned_id Sample.accepting Sample.bot Sample.quiet "main" "text" "main" 7).
  reflexivity.
Defined.

(** X15 at a concrete input. *)
Lemma first_edit_pins_witness :
  let result :=
    Telegram.final (Telegram.edit_pinned_message Sample.accepting Sample.bot Sample.quiet
                      "positive" "text") in
  Telegram.pinned_message_id result.1 "positive" = Some 100%Z
  ↔ (∃ text, Sample.accepting (length (Telegram.requests Sample.quiet))
             = Telegram.Response 200 text (inr 100%Z))
    ∧ (∃ text message_id, Sample.accepting (S (length (Telegram.requests Sample.quiet)))
                          = Telegram.Response 200 text message_id).
Proof.
  apply (first_edit_pins Sample.accepting Sample.bot Sample.quiet "positive" "text" 100).
  reflexivity.
Defined.

(** ** The run *)

Section collecting.
Context (fetcher : DataFetcher.t)
        (sublists : string → nat → DataFetcher.attempt (list State.Submission))
        (participants : list Participant.t).
Implicit Types (state : State.t) (submission : State.Submission).

#[local] Abbreviation fetched participant :=
  (DataFetcher.fetch_data fetcher sublists (Participant.login participant)).1.

(** The last round of the loop over the participants. *)
Lemma new_submissions_snoc state (l : list Participant.t) (participant : Participant.t) :
  Main.new_submissions fetcher sublists (l ++ [participant]) state
  = match fetched participant with
    | None => ((Main.new_submissions fetcher sublists l state).1, true)
    | Some data =>
        ((Main.new_submissions fetcher sublists l state).1
           ++ filter (λ submission, State.has_submission state submission = false) data,
         (Main.new_submissions fetcher sublists l state).2)
    end.
Proof. unfold Main.new_submissions. by rewrite foldl_app. Qed.

(** The new submissions: listed for a participant whose fetch succeeded,
    and not recorded. *)
Lemma elem_of_new_submissions state submission :
  submission ∈ (Main.new_submissions fetcher sublists participants state).1
  ↔ ∃ participant data,
      participant ∈ participants ∧ fetched participant = Some data
      ∧ submission ∈ data ∧ State.has_submission state submission = false.
Proof.
  induction participants as [|participant l IH] using rev_ind.
  - cbn. split; [by intros ?%elem_of_nil | by intros (? & ? & ?%elem_of_nil & _)].
  - rewrite new_submissions_snoc. destruct (fetched participant) as [data|] eqn:Hdata; cbn [fst].
    + rewrite elem_of_app, IH, list_elem_of_filter. split.
      * intros [(p & d & Hp & Hd & Hin)|[Hnew Hin]].
        -- exists p, d. rewrite elem_of_app. auto.
        -- exists participant, data. rewrite elem_of_app, list_elem_of_singleton. auto.
      * intros (p & d & [Hp | ->%list_elem_of_singleton]%elem_of_app & Hd & Hin & Hnew).
        -- left. by exists p, d.
        -- right. by simplify_eq.
    + rewrite IH. split.
      * intros (p & d & Hp & Hd & Hin). exists p, d. rewrite elem_of_app. auto.
      * intros (p & d & [Hp | ->%list_elem_of_singleton]%elem_of_app & Hd & Hin & Hnew).
        -- by exists p, d.
        -- congruence.
Qed.

(** X16. [fetch_failed] is set exactly when the fetch for some configured
    participant returned [None]; whatever fails, the new submissions are
    those listed for a participant whose fetch succeeded that the ledger has
    not recorded. *)
Theorem failed_fetch_is_isolated state :
  let result := Main.new_submissions fetcher sublists participants state in
  (result.2 = true ↔ ∃ participant, participant ∈ participants ∧ fetched participant = None)
  ∧ (∀ submission,
       submission ∈ result.1
       ↔ ∃ participant data,
           participant ∈ participants ∧ fetched participant = Some data
           ∧ submission ∈ data ∧ State.has_submission state submission = false).
Proof.
  split; [|apply elem_of_new_submissions].
  induction participants as [|participant l IH] using rev_ind.
  - cbn. split; [done | by intros (? & ?%elem_of_nil & _)].
  - rewrite new_submissions_snoc. destruct (fetched participant) as [data|] eqn:Hdata; cbn [snd].
    + rewrite IH. split.
      * intros (p & Hp & Hd). exists p. rewrite elem_of_app. auto.
      * intros (p & [Hp | ->%list_elem_of_singleton]%elem_of_app & Hd); [by exists p | congruence].
    + split; [|done]. intros _. exists participant.
      by rewrite elem_of_app, list_elem_of_singleton; auto.
Qed.

End collecting.

Section announcing.
Context (network : nat → Telegram.answer)
        (participants : list Participant.t) (problems : list Problem.t)
        (main_chat positive_chat : string) (submit_time : Z → string).
Implicit Types (r : Main.run) (submission : State.Submission).

#[local] Abbreviation announce :=
  (Main.announce network participants problems main_chat positive_chat submit_time).
#[local] Abbreviation announce_all :=
  (Main.announce_all network participants problems main_chat positive_chat submit_time).

(** Without [pin], [send_message] leaves the object and makes one request. *)
Lemma send_message_plain (self : Telegram.t) (w : Telegram.io) (chat_id text : string) :
  let result := Telegram.final (Telegram.send_message network self w chat_id text false) in
  result.1 = self
  ∧ Telegram.requests result.2
    = Telegram.requests w ++ [Telegram.sendMessage (Telegram.token self) text chat_id].
Proof. unfold Telegram.send_message. cbn zeta. by repeat case_match. Qed.

#[local] Ltac nothing_sent :=
  cbn; split_and!;
  [ done | set_solver | set_solver
  | exists []; rewrite app_nil_r; split_and!; [done | constructor | done] ].

(** One pass of the loop body, whether it ends or raises. *)
Lemma announce_final r submission :
  let r' := Telegram.final (announce r submission) in
  Main.telegram r' = Main.telegram r
  ∧ Main.score_upgrades r ⊆ Main.score_upgrades r'
  ∧ (Main.score_upgrades r' ⊆ {[ State.user submission ]} ∪ Main.score_upgrades r)
  ∧ ∃ new, Telegram.requests (Main.io r') = Telegram.requests (Main.io r) ++ new
           ∧ Main.sent main_chat positive_chat (Telegram.token (Main.telegram r)) new
           ∧ (Main.problem_muted problems !! State.task submission ≠ Some false →
              new = [] ∧ Main.score_upgrades r' = Main.score_upgrades r).
Proof.
  unfold Main.announce. cbn zeta.
  destruct (Main.use_fractional_scoring problems !! State.task submission) as [fractional|];
    [|nothing_sent].
  destruct (State.add_submission (Main.state r) submission) as [[] state'|e state'];
    [|nothing_sent].
  destruct (Main.participant_names participants !! State.user submission) as [participant_name|];
    [|nothing_sent].
  destruct (Main.problem_names problems !! State.task submission) as [problem_name|];
    [|nothing_sent].
  destruct (Main.problem_muted problems !! State.task submission) as [[]|];
    [nothing_sent
    | |nothing_sent].
  match goal with
  | |- context [Telegram.send_message network ?self ?w ?chat ?text false] =>
      pose proof (send_message_plain self w chat text) as [Hself Hreq];
      destruct (Telegram.send_message network self w chat text false)
        as [[telegram1 w1]|e [telegram1 w1]]
  end; cbn [Telegram.final fst snd] in Hself, Hreq; subst telegram1.
  - case_decide as Hchanged.
    + match goal with
      | |- context [Telegram.send_message network ?self ?w ?chat ?text false] =>
          pose proof (send_message_plain self w chat text) as [Hself' Hreq'];
          destruct (Telegram.send_message network self w chat text false)
            as [[telegram2 w2]|e [telegram2 w2]]
      end; cbn [Telegram.final fst snd] in Hself', Hreq'; subst telegram2;
      (cbn; split_and!; [done|set_solver|set_solver|];
       eexists; split; [by rewrite Hreq', Hreq, <-app_assoc|]; split; [apply Main.sent_both|done]).
    + cbn. split_and!; [done|set_solver|set_solver|].
      eexists. split; [done|]. split; [apply Main.sent_main|done].
  - cbn. split_and!; [done|set_solver|set_solver|].
    eexists. split; [done|]. split; [apply Main.sent_main|done].
Qed.

(** A pass that ends has applied the submission to the ledger. *)
Lemma announce_Done r submission r' :
  announce r submission = Telegram.Done r' →
  State.add_submission (Main.state r) submission = Py.Returned tt (Main.state r').
Proof.
  unfold Main.announce. cbn zeta.
  repeat (case_match; try done); intros [= <-]; cbn; by destruct_all unit.
Qed.

Lemma announce_all_Done r (submissions : list State.Submission) r' :
  announce_all r submissions = Telegram.Done r' →
  State.add_submissions (Main.state r) submissions = Py.Returned tt (Main.state r').
Proof.
  revert r. induction submissions as [|submission rest IH]; intros r; cbn.
  - by intros [= <-].
  - destruct (announce r submission) as [r1|e r1] eqn:Hstep; [|done].
    apply announce_Done in Hstep. rewrite Hstep. apply IH.
Qed.

End announcing.

Section ledger_keys.
Import State.

(** Applications that return record the keys in order. *)
Lemma add_submissions_keys (subs : list Submission) (self self' : State.t) :
  add_submissions self subs = Py.Returned tt self' →
  submissions self' = submissions self ++ (key <$> subs).
Proof.
  revert self. induction subs as [|sub subs IH]; intros self; cbn [add_submissions].
  - intros [= <-]. by rewrite app_nil_r.
  - rewrite add_submission_unfold. cbn zeta. case_decide; [|done].
    intros ->%IH. cbn [submissions fmap list_fmap]. by rewrite <-app_assoc.
Qed.

End ledger_keys.

Section loop.
Context (network : nat → Telegram.answer)
        (participants : list Participant.t) (problems : list Problem.t)
        (main_chat positive_chat : string) (submit_time : Z → string).
Implicit Types (r : Main.run) (submission : State.Submission).

#[local] Abbreviation announce :=
  (Main.announce network participants problems main_chat positive_chat submit_time).
#[local] Abbreviation announce_all :=
  (Main.announce_all network participants problems main_chat positive_chat submit_time).

Lemma announce_all_cons r submission (rest : list State.Submission) :
  Telegram.final (announce_all r (submission :: rest))
  = match announce r submission with
    | Telegram.Done r1 => Telegram.final (announce_all r1 rest)
    | Telegram.Failed e r1 => r1
    end.
Proof. cbn. by destruct (announce r submission). Qed.


(** X17. The loop over the new submissions, whether it ends or raises,
    leaves the Telegram object as it is and requests only [sendMessage] for
    the main chat and the positive chat; every text sent to the positive chat
    was sent to the main chat too. *)
Theorem announcements_go_to_main_chat r (submissions : list State.Submission) :
  let r' := Telegram.final (announce_all r submissions) in
  let token := Telegram.token (Main.telegram r) in
  Main.telegram r' = Main.telegram r
  ∧ ∃ new, Telegram.requests (Main.io r') = Telegram.requests (Main.io r) ++ new
      ∧ ∀ url, url ∈ new →
          ∃ text, Telegram.sendMessage token text main_chat ∈ new
                  ∧ (url = Telegram.sendMessage token text main_chat
                     ∨ url = Telegram.sendMessage token text positive_chat).
Proof.
  revert r. induction submissions as [|submission rest IH]; intros r.
  - cbn. split; [done|]. exists []. rewrite app_nil_r. split; [done|].
    by intros url ?%elem_of_nil.
  - cbn zeta. rewrite announce_all_cons.
    destruct (announce_final network participants problems main_chat positive_chat
                submit_time r submission) as (Htel & _ & _ & new & Hreq & Hsent & _).
    assert (∀ url, url ∈ new →
              ∃ text, Telegram.sendMessage (Telegram.token (Main.telegram r)) text main_chat ∈ new
                      ∧ (url = Telegram.sendMessage (Telegram.token (Main.telegram r)) text main_chat
                         ∨ url = Telegram.sendMessage (Telegram.token (Main.telegram r)) text
                                   positive_chat)) as Hnew.
    { destruct Hsent as [|text|text]; intros url Hin.
      - by apply elem_of_nil in Hin.
      - exists text. apply list_elem_of_singleton in Hin as ->. split; [by left | by left].
      - exists text. split; [by left|].
        apply elem_of_cons in Hin as [->|Hin%list_elem_of_singleton]; auto. }
    destruct (announce r submission) as [r1|e r1]; cbn [Telegram.final] in Htel, Hreq.
    + destruct (IH r1) as (Htel1 & new1 & Hreq1 & Hnew1). rewrite Htel in Htel1, Hnew1.
      split; [done|]. exists (new ++ new1). split; [by rewrite Hreq1, Hreq, <-app_assoc|].
      intros url [Hin|Hin]%elem_of_app.
      * destruct (Hnew url Hin) as (text & Hmain & Hurl). exists text.
        rewrite elem_of_app. auto.
      * destruct (Hnew1 url Hin) as (text & Hmain & Hurl). exists text.
        rewrite elem_of_app. auto.
    + split; [done|]. by exists new.
Qed.

(** X18. Submissions for muted problems make no request and mark no
    participant; a participant is in [score_upgrades] after the loop only if
    they were before, or one of the submissions is theirs for a problem that
    is not muted. *)
Theorem muted_problems_are_silent r (submissions : list State.Submission) :
  let r' := Telegram.final (announce_all r submissions) in
  (Forall (λ submission, Main.problem_muted problems !! State.task submission = Some true)
          submissions →
   Telegram.requests (Main.io r') = Telegram.requests (Main.io r)
   ∧ Main.score_upgrades r' = Main.score_upgrades r)
  ∧ ∀ participant,
      participant ∈ Main.score_upgrades r' →
      participant ∈ Main.score_upgrades r
      ∨ ∃ submission, submission ∈ submissions ∧ State.user submission = participant
          ∧ Main.problem_muted problems !! State.task submission = Some false.
Proof.
  revert r. induction submissions as [|submission rest IH]; intros r.
  - cbn. split; [done | auto].
  - cbn zeta. rewrite announce_all_cons.
    destruct (announce_final network participants problems main_chat positive_chat
                submit_time r submission) as (_ & _ & Hup & new & Hreq & _ & Hmuted).
    assert (∀ participant,
              participant ∈ Main.score_upgrades (Telegram.final (announce r submission)) →
              participant ∈ Main.score_upgrades r
              ∨ State.user submission = participant
                ∧ Main.problem_muted problems !! State.task submission = Some false) as Hstep.
    { intros participant Hin.
      destruct (decide (Main.problem_muted problems !! State.task submission = Some false))
        as [Hm|Hm].
      - apply Hup in Hin. apply elem_of_union in Hin as [->%elem_of_singleton|Hin]; auto.
      - destruct (Hmuted Hm) as [_ Heq]. rewrite Heq in Hin. by left. }
    destruct (announce r submission) as [r1|e r1]; cbn [Telegram.final] in *.
    + destruct (IH r1) as [IHsilent IHup]. split.
      * intros [Hm Hrest]%Forall_cons. destruct (IHsilent Hrest) as [-> ->].
        destruct Hmuted as [-> ->]; [congruence|]. by rewrite app_nil_r in Hreq.
      * intros participant [Hin|(s & Hs & Hu & Hm)]%IHup.
        -- destruct (Hstep participant Hin) as [?|[? ?]]; [by left|].
           right. exists submission. split; [by left | done].
        -- right. exists s. split; [by right | done].
    + split.
      * intros [Hm _]%Forall_cons. destruct Hmuted as [-> ->]; [congruence|].
        by rewrite app_nil_r in Hreq.
      * intros participant Hin. destruct (Hstep participant Hin) as [?|[? ?]]; [by left|].
        right. exists submission. split; [by left | done].
Qed.

End loop.

Section config_dicts_absent.
Context {A V : Type} (key : A → string) (value : A → V).

(** A dictionary built by a loop over the configuration has no other key. *)
Lemma lookup_foldl_insert_None (l : list A) (d : gmap string V) (k : string) :
  k ∉ key <$> l → foldl (λ d x, <[key x := value x]> d) d l !! k = d !! k.
Proof.
  revert d. induction l as [|x l IH]; intros d Hk; [done|]. cbn [foldl].
  rewrite fmap_cons, not_elem_of_cons in Hk. destruct Hk as [Hne Hk].
  rewrite IH by done. by rewrite lookup_insert_ne.
Qed.

End config_dicts_absent.

Section names.
Context (network : nat → Telegram.answer)
        (participants : list Participant.t) (problems : list Problem.t)
        (main_chat positive_chat : string) (submit_time : Z → string).
Implicit Types (r : Main.run) (submission : State.Submission).

(** X19. A submission for a problem that is not configured raises
    [KeyError] before the ledger is touched and before anything is printed or
    sent; a submission by a participant who is not configured raises
    [KeyError] once it is applied to the ledger, before anything is printed or
    sent. The submissions after it are not processed. *)
Theorem unknown_names_stop_the_loop r submission (rest : list State.Submission) :
  (State.task submission ∉ Problem.id <$> problems →
   Main.announce_all network participants problems main_chat positive_chat submit_time
     r (submission :: rest)
   = Telegram.Failed (Telegram.Python Py.KeyError) r)
  ∧ (State.task submission ∈ Problem.id <$> problems →
     State.user submission ∉ Participant.login <$> participants →
     ∀ state', State.add_submission (Main.state r) submission = Py.Returned tt state' →
     Main.announce_all network participants problems main_chat positive_chat submit_time
       r (submission :: rest)
     = Telegram.Failed (Telegram.Python Py.KeyError)
         {| Main.state := state'; Main.score_upgrades := Main.score_upgrades r;
            Main.telegram := Main.telegram r; Main.io := Main.io r |}).
Proof.
  split.
  - intros Hp. cbn [Main.announce_all]. unfold Main.announce, Main.use_fractional_scoring.
    cbn zeta. by rewrite lookup_foldl_insert_None by done.
  - intros Hp Hu state' Hadd. cbn [Main.announce_all]. unfold Main.announce. cbn zeta.
    destruct (lookup_foldl_insert_is_Some Problem.id Problem.fractional_scoring
                problems ∅ _ Hp) as [fractional Hf].
    unfold Main.use_fractional_scoring. rewrite Hf, Hadd.
    unfold Main.participant_names. by rewrite lookup_foldl_insert_None by done.
Qed.

End names.

Section whole.
Context (fetcher : DataFetcher.t)
        (sublists : string → nat → DataFetcher.attempt (list State.Submission))
        (totals : string → nat → DataFetcher.attempt (gmap string (gmap string Qc)))
        (network : nat → Telegram.answer)
        (TOKEN : string)
        (participants : list Participant.t) (problems : list Problem.t)
        (main_chat positive_chat : string)
        (submit_time : Z → string).
Implicit Types (disk : Main.files).

#[local] Abbreviation main :=
  (Main.main fetcher sublists totals network TOKEN participants problems
             main_chat positive_chat submit_time).

(** What a run that returns went through. *)
Lemma main_Done disk disk' w :
  main disk = Telegram.Done (disk', w) →
  ∃ r scoreboard,
    Main.announce_all network participants problems main_chat positive_chat submit_time
      {| Main.state := State.init (Main.state_json disk);
         Main.score_upgrades := ∅;
         Main.telegram := Telegram.init TOKEN (Main.pinned_json disk);
         Main.io := Telegram.mkIo [] [] |}
      (Py.sorted Main.by_time
         (Main.new_submissions fetcher sublists participants
            (State.init (Main.state_json disk))).1)
    = Telegram.Done r
    ∧ scoreboard
      = Scoreboard.init
          (if (Main.new_submissions fetcher sublists participants
                 (State.init (Main.state_json disk))).2
           then None else (DataFetcher.fetch_scores fetcher totals).1)
          (Main.scoreboard_json disk)
    ∧ Main.state_json disk' = Some (Main.state r)
    ∧ Main.scoreboard_json disk' = Some (Scoreboard.positions scoreboard)
    ∧ ∃ telegram1 w1 lines,
        Main.leaderboard participants problems (Main.state r) (Main.score_upgrades r) scoreboard
          = inr lines
        ∧ Telegram.edit_pinned_message network (Main.telegram r) (Main.io r) main_chat
            (String.concat Main.newline lines.*1) = Telegram.Done (telegram1, w1)
        ∧ Main.pinned_json disk'
          = Some (Telegram.config
                    (Telegram.final (Telegram.edit_pinned_message network telegram1 w1
                                       positive_chat (String.concat Main.newline lines.*1))).1).
Proof.
  unfold Main.main. cbn zeta.
  destruct (Main.announce_all _ _ _ _ _ _ _ _) as [r|e r] eqn:Hloop; [|done].
  cbn [Main.state].
  destruct (Main.leaderboard _ _ _ _ _) as [e|lines] eqn:Hlines; [done|].
  destruct (Telegram.edit_pinned_message _ _ _ main_chat _) as [[telegram1 w1]|e [? ?]] eqn:Hmain;
    [|done].
  destruct (Telegram.edit_pinned_message _ _ _ positive_chat _)
    as [[telegram2 w2]|e [? ?]] eqn:Hpositive; [|done].
  intros [= <- <-]. exists r. eexists. split; [done|]. split; [done|]. cbn.
  split; [done|]. split; [done|]. exists telegram1, w1, lines. by rewrite Hpositive.
Qed.

(** X20. In a run that returns, the state file written holds the ledger
    obtained by applying the new submissions in the order of their times, and
    against that state file the same answers of the scoreboard server yield no
    new submission: nothing is announced twice. *)
Theorem completed_run_announces_once disk disk' w :
  main disk = Telegram.Done (disk', w) →
  (∃ state', Main.state_json disk' = Some state'
     ∧ State.add_submissions (State.init (Main.state_json disk))
         (Py.sorted Main.by_time
            (Main.new_submissions fetcher sublists participants
               (State.init (Main.state_json disk))).1)
       = Py.Returned tt state')
  ∧ (Main.new_submissions fetcher sublists participants
       (State.init (Main.state_json disk'))).1 = [].
Proof.
  intros (r & scoreboard & Hloop & _ & Hstate & _)%main_Done.
  apply announce_all_Done in Hloop. cbn [Main.state] in Hloop.
  split; [by exists (Main.state r)|].
  rewrite Hstate. cbn [State.init default from_option]. unfold id.
  apply add_submissions_keys in Hloop.
  set (state0 := State.init (Main.state_json disk)) in *.
  destruct (Main.new_submissions fetcher sublists participants (Main.state r)).1
    as [|submission rest] eqn:Hnew; [done|].
  assert (submission ∈ (Main.new_submissions fetcher sublists participants (Main.state r)).1)
    as Hin by (rewrite Hnew; by left).
  apply elem_of_new_submissions in Hin as (participant & data & Hp & Hdata & Hin & Hfresh).
  unfold State.has_submission in Hfresh. apply bool_decide_eq_false in Hfresh.
  destruct Hfresh. rewrite Hloop, elem_of_app.
  destruct (State.has_submission state0 submission) eqn:Hold.
  - left. by apply bool_decide_eq_true in Hold.
  - right. apply list_elem_of_fmap. exists submission. split; [done|].
    rewrite sorted_Permutation. apply elem_of_new_submissions. by exists participant, data.
Qed.

(** X21. When the fetch for some participant failed, the run does not
    depend on the [scores] endpoint, and if it returns, the snapshot written
    to [scoreboard.json] is empty. *)
Theorem failed_fetch_skips_scores disk
    (totals' : string → nat → DataFetcher.attempt (gmap string (gmap string Qc))) :
  (Main.new_submissions fetcher sublists participants (State.init (Main.state_json disk))).2
    = true →
  main disk
  = Main.main fetcher sublists totals' network TOKEN participants problems
              main_chat positive_chat submit_time disk
  ∧ ∀ disk' w, main disk = Telegram.Done (disk', w) → Main.scoreboard_json disk' = Some ∅.
Proof.
  intros Hfailed. split.
  - unfold Main.main. cbn zeta. cbn [Main.state]. by rewrite Hfailed.
  - intros disk' w (r & scoreboard & _ & -> & _ & -> & _)%main_Done. by rewrite Hfailed.
Qed.


End whole.

(** X20 at a concrete input. *)
Lemma completed_run_announces_once_witness :
  let main :=
    Main.main Sample.source Sample.sublists Sample.totals Sample.accepting "T"
      Sample.participants Sample.problems "main" "positive" Py.str in
  let disk' := (Telegram.final (main Sample.disk)).1 in
  (∃ state', Main.state_json disk' = Some state'
     ∧ State.add_submissions (State.init (Main.state_json Sample.disk))
         (Py.sorted Main.by_time
            (Main.new_submissions Sample.source Sample.sublists Sample.participants
               (State.init (Main.state_json Sample.disk))).1)
       = Py.Returned tt state')
  ∧ (Main.new_submissions Sample.source Sample.sublists Sample.participants
       (State.init (Main.state_json disk'))).1 = [].
Proof.
  intros main disk'.
  apply (completed_run_announces_once Sample.source Sample.sublists Sample.totals
           Sample.accepting "T" Sample.participants Sample.problems "main" "positive" Py.str
           Sample.disk disk' (Telegram.final (main Sample.disk)).2).
  vm_compute. reflexivity.
Defined.

(** X21 at a concrete input. *)
Lemma failed_fetch_skips_scores_witness :
  let main totals :=
    Main.main Sample.source Sample.sublists_without_bob totals Sample.accepting "T"
      Sample.participants Sample.problems "main" "positive" Py.str in
  main Sample.totals Sample.disk = main (λ _ _, DataFetcher.Fault) Sample.disk
  ∧ ∀ disk' w, main Sample.totals Sample.disk = Telegram.Done (disk', w) →
               Main.scoreboard_json disk' = Some ∅.
Proof.
  apply (failed_fetch_skips_scores Sample.source Sample.sublists_without_bob Sample.totals
           Sample.accepting "T" Sample.participants Sample.problems "main" "positive" Py.str
           Sample.disk (λ _ _, DataFetcher.Fault)).
  vm_compute. reflexivity.
Defined.


Section aborted.
Context (fetcher : DataFetcher.t)
        (sublists : string → nat → DataFetcher.attempt (list State.Submission))
        (totals : string → nat → DataFetcher.attempt (gmap string (gmap string Qc)))
        (network : nat → Telegram.answer)
        (TOKEN : string)
        (participants : list Participant.t) (problems : list Problem.t)
        (main_chat positive_chat : string)
        (submit_time : Z → string).
Implicit Types (disk : Main.files).

(** X23. When every fetch succeeded and the totals answered are non-empty
    but lack a configured participant, the run raises, whatever was announced
    before, and leaves the three files as they were. *)
Theorem missing_participant_aborts_run disk (scores : gmap string (gmap string Qc))
    (participant : Participant.t) :
  (Main.new_submissions fetcher sublists participants (State.init (Main.state_json disk))).2
    = false →
  (DataFetcher.fetch_scores fetcher totals).1 = Some scores →
  scores ≠ ∅ →
  participant ∈ participants →
  scores !! Participant.login participant = None →
  ∃ e w, Main.main fetcher sublists totals network TOKEN participants problems
           main_chat positive_chat submit_time disk
         = Telegram.Failed e (disk, w).
Proof.
  intros Hfetched Hscores Hne Hin Hmissing. unfold Main.main. cbn zeta.
  destruct (Main.announce_all _ _ _ _ _ _ _ _) as [r|e r]; [|by eexists _, _].
  cbn [Main.state]. rewrite Hfetched, Hscores.
  destruct (Main.leaderboard _ _ _ _ _) as [e|lines] eqn:Hlines; [by eexists _, _|].
  exfalso. unfold Main.leaderboard in Hlines.
  destruct (mapM _ participants) as [e|builder] eqn:Hbuilder; [done|].
  apply mapM_inr in Hbuilder. apply list_elem_of_lookup in Hin as [i Hi].
  destruct (Forall2_lookup_l _ _ _ _ _ Hbuilder Hi) as (x & _ & Hline).
  apply line_result in Hline as [diff Hresult].
  rewrite get_result_absent in Hresult; [done | by apply ok_init | by apply positions_absent].
Qed.

End aborted.

(** X23 at a concrete input. *)
Lemma missing_participant_aborts_run_witness :
  ∃ e w, Main.main Sample.source Sample.sublists Sample.totals Sample.accepting "T"
           (Sample.participants ++ [Participant.mk "dan" "Dan"]) Sample.problems
           "main" "positive" Py.str Sample.disk
         = Telegram.Failed e (Sample.disk, w).
Proof.
  apply (missing_participant_aborts_run Sample.source Sample.sublists Sample.totals
           Sample.accepting "T" (Sample.participants ++ [Participant.mk "dan" "Dan"])
           Sample.problems "main" "positive" Py.str Sample.disk Sample.scores
           (Participant.mk "dan" "Dan")).
  - reflexivity.
  - reflexivity.
  - done.
  - apply elem_of_app. right. by left.
  - reflexivity.
Defined.

(** ** The formatter read back *)

Section read_back.
Import Formatter.

(** An exact quotient is not rounded. *)
Lemma round_half_even_exact (m : Z) (d : positive) :
  round_half_even (m * Z.pos d) d = m.
Proof.
  unfold round_half_even. rewrite Z.div_mul, Z.mod_mul by lia. done.
Qed.

(** The number a non-negative text is read back as has the same text. *)
Lemma format_f_written (precision : nat) (value : Qc) :
  (0 ≤ value)%Qc →
  format_f precision (written precision value) = format_f precision value.
Proof.
  intros Hpos.
  assert (0 ≤ Qnum value)%Z as Hnum.
  { unfold Qcle, Qle in Hpos. cbn in Hpos. change (Qred 0%Q) with 0%Q in Hpos. cbn in Hpos. lia. }
  pose proof (written_magnitude precision value) as Hmag. cbn zeta in Hmag.
  unfold written. cbn zeta.
  destruct (Z.ltb_spec (Qnum value) 0) as [?|_]; [lia|].
  set (unit := (10 ^ Z.of_nat precision)%Z) in *.
  set (m := round_half_even (Z.abs (Qnum value) * unit) (Qden value)) in *.
  set (w := (Qc_of_Z (m / unit) + Q2Qc ((m mod unit) # Z.to_pos unit))%Qc) in *.
  assert (0 < unit)%Z as Hunit by (unfold unit; lia).
  assert (0 ≤ m)%Z as Hm by (apply round_half_even_nonneg; lia).
  unfold Qeq in Hmag. cbn [Qnum Qden] in Hmag. rewrite Z2Pos.id in Hmag by done.
  assert (0 ≤ Qnum w)%Z as Hw by nia.
  unfold format_f. cbn zeta. fold unit.
  destruct (Z.ltb_spec (Qnum w) 0) as [?|_]; [lia|].
  destruct (Z.ltb_spec (Qnum value) 0) as [?|_]; [lia|].
  rewrite (Z.abs_eq (Qnum w)) by done. rewrite Hmag, round_half_even_exact. done.
Qed.

(** X24. The text of a non-negative value is read back by [float] as a
    number whose text is the same: formatting what was read back changes
    nothing. *)
Theorem formatter_reads_back_unchanged (value : Qc) (fractional_scoring : bool) :
  (0 ≤ value)%Qc →
  ∃ number, Py.float (formatter value fractional_scoring) = Some number
            ∧ formatter number fractional_scoring = formatter value fractional_scoring.
Proof.
  intros Hpos. unfold formatter, call.
  exists (written (formatting_dict fractional_scoring) value).
  split; [apply float_format_f | by apply format_f_written].
Qed.

End read_back.

(** X24 at a concrete input. *)
Lemma formatter_reads_back_unchanged_witness :
  ∃ number, Py.float (formatter (Q2Qc (66666 # 1000)) true) = Some number
            ∧ formatter number true = formatter (Q2Qc (66666 # 1000)) true.
Proof. apply (formatter_reads_back_unchanged (Q2Qc (66666 # 1000)) true). by vm_compute. Defined.

(** A negative value that rounds to zero is written with its sign and read
    back as zero, whose text has none. *)
Example negative_zero_reads_back_as_zero :
  formatter (Q2Qc (-1 # 3)) false = "-0"
  ∧ Py.float (formatter (Q2Qc (-1 # 3)) false) = Some 0%Qc
  ∧ formatter 0%Qc false = "0".
Proof. split_and!; reflexivity. Qed.
